(** * pyrx: the Rx schema compiler and its fourteen core validators

    A shallow embedding of [src/pyrx.py] (the Python 3 branch of the module:
    [string_types = (str,)], [num_types = (float, int)]).

    - JSON-like data is the inductive [value]; a Python [dict] is an
      association list in insertion order, [d\[k\]] and [d.get(k)] read the
      binding of [k], [d\[k\] = v] updates it in place or appends it.
    - An exception is a value of [error]; code that can raise returns
      [result A].
    - [Factory.make_schema] recurses through learned aliases, so it takes a
      recursion budget and returns [None] when the budget is used up.
    - Text is modelled as ASCII [string]s; a sequence is a [list] (JSON-like
      data has no [tuple]), and the keys of a mapping are strings. *)

From Stdlib Require Import ZArith QArith List String Ascii Bool Lia.
Import ListNotations.
Set Warnings "-register-all".
Open Scope string_scope.
Open Scope Z_scope.

(** ** Exceptions *)

Inductive error : Type :=
| RxError (msg : string)
| KeyError (key : string)
| ValueError (msg : string)
| TypeError
| AttributeError
| IndexError.

Inductive result (A : Type) : Type :=
| Ok (a : A)
| Err (e : error).
Arguments Ok {A} a.
Arguments Err {A} e.

Definition bind {A B : Type} (m : result A) (k : A -> result B) : result B :=
  match m with
  | Ok a => k a
  | Err e => Err e
  end.

Declare Scope res_scope.
Delimit Scope res_scope with res.
Notation "x <- m ;; k" := (bind m (fun x => k))
  (at level 61, m at next level, right associativity) : res_scope.
Notation "'raise_if' c 'then' e ;; k" := (if c then Err e else k)
  (at level 61, c at next level, e at next level, right associativity) : res_scope.
Open Scope res_scope.

(** ** Numbers

    A Python [float] is NaN, an infinity or a finite double; every finite
    double is a rational, and Python compares [int] with [float] by exact
    value, so a finite float carries its value in [Q]. *)

Inductive pyfloat : Type :=
| FNan
| FInf (negative : bool)
| FFin (q : Q).

Inductive number : Type :=
| NInt (z : Z)
| NFloat (f : pyfloat).

Definition float_of (n : number) : pyfloat :=
  match n with
  | NInt z => FFin (inject_Z z)
  | NFloat f => f
  end.

(** Three-way comparison; [None] when an operand is NaN (every ordering
    test on NaN is false). *)
Definition float_cmp (a b : pyfloat) : option comparison :=
  match a, b with
  | FNan, _ | _, FNan => None
  | FInf true, FInf true => Some Eq
  | FInf true, _ => Some Lt
  | FInf false, FInf false => Some Eq
  | FInf false, _ => Some Gt
  | FFin _, FInf true => Some Gt
  | FFin _, FInf false => Some Lt
  | FFin p, FFin q => Some (Qcompare p q)
  end.

Definition num_cmp (a b : number) : option comparison :=
  match a, b with
  | NInt x, NInt y => Some (Z.compare x y)
  | _, _ => float_cmp (float_of a) (float_of b)
  end.

Definition num_lt (a b : number) : bool :=
  match num_cmp a b with Some Lt => true | _ => false end.
Definition num_le (a b : number) : bool :=
  match num_cmp a b with Some Lt | Some Eq => true | _ => false end.
Definition num_gt (a b : number) : bool :=
  match num_cmp a b with Some Gt => true | _ => false end.
Definition num_ge (a b : number) : bool :=
  match num_cmp a b with Some Gt | Some Eq => true | _ => false end.
Definition num_eq (a b : number) : bool :=
  match num_cmp a b with Some Eq => true | _ => false end.
(** [a != b] *)
Definition num_ne (a b : number) : bool := negb (num_eq a b).

(** [n % 1 != 0]: false on every [int]; on a float the remainder is zero
    exactly when the float is finite and integral (the remainder of an
    infinity or of NaN is NaN, which differs from 0). *)
Definition mod1_nonzero (n : number) : bool :=
  match n with
  | NInt _ => false
  | NFloat (FFin q) => negb (Z.eqb (Z.modulo (Qnum q) (Zpos (Qden q))) 0)
  | NFloat _ => true
  end.

(** ** JSON-like values *)

Inductive value : Type :=
| VNone
| VBool (b : bool)
| VInt (z : Z)
| VFloat (f : pyfloat)
| VStr (s : string)
| VList (items : list value)
| VDict (entries : list (string * value)).

(** [isinstance(v, num_types) and not isinstance(v, bool)], with the number. *)
Definition as_num (v : value) : option number :=
  match v with
  | VInt z => Some (NInt z)
  | VFloat f => Some (NFloat f)
  | _ => None
  end.

(** What the ordering operators see on their right: [bool] is a subclass of
    [int], anything else than a number cannot be ordered against a number. *)
Definition as_ordered (v : value) : option number :=
  match v with
  | VBool b => Some (NInt (if b then 1 else 0))
  | VInt z => Some (NInt z)
  | VFloat f => Some (NFloat f)
  | _ => None
  end.

(** Truth value of an object in a condition. *)
Definition truthy (v : value) : bool :=
  match v with
  | VNone => false
  | VBool b => b
  | VInt z => negb (Z.eqb z 0)
  | VFloat f => num_ne (NFloat f) (NInt 0)
  | VStr s => negb (String.eqb s EmptyString)
  | VList l => match l with [] => false | _ => true end
  | VDict d => match d with [] => false | _ => true end
  end.

(** ** Dictionaries *)

Section Dict.
Context {V : Type}.

Fixpoint dict_get (d : list (string * V)) (k : string) : option V :=
  match d with
  | [] => None
  | (k', v) :: d' => if String.eqb k k' then Some v else dict_get d' k
  end.

Fixpoint dict_set (d : list (string * V)) (k : string) (v : V) : list (string * V) :=
  match d with
  | [] => [(k, v)]
  | (k', v') :: d' =>
      if String.eqb k k' then (k, v) :: d' else (k', v') :: dict_set d' k v
  end.

Definition dict_keys (d : list (string * V)) : list string := map fst d.
Definition dict_values (d : list (string * V)) : list V := map snd d.

Definition dict_has (d : list (string * V)) (k : string) : bool :=
  match dict_get d k with Some _ => true | None => false end.

(** [d\[k\]] *)
Definition dict_item (d : list (string * V)) (k : string) : result V :=
  match dict_get d k with
  | Some v => Ok v
  | None => Err (KeyError k)
  end.
End Dict.

Definition str_in (k : string) (ks : list string) : bool :=
  existsb (String.eqb k) ks.

(** [set(ks) <= set(allowed)] *)
Definition keys_within (ks allowed : list string) : bool :=
  forallb (fun k => str_in k allowed) ks.


(** ** Short-circuit loops

    [for x in xs: if not f(x): return False] followed by [return True], and
    its dual; an exception raised by [f] leaves the loop. *)

Section Loops.
Context {A : Type} (f : A -> result bool).

Fixpoint all_checks (xs : list A) : result bool :=
  match xs with
  | [] => Ok true
  | x :: xs' => b <- f x ;; if b then all_checks xs' else Ok false
  end.

Fixpoint any_checks (xs : list A) : result bool :=
  match xs with
  | [] => Ok false
  | x :: xs' => b <- f x ;; if b then Ok true else any_checks xs'
  end.
End Loops.

Section Positional.
Context {A B : Type} (f : A -> B -> result bool).

(** [for i in range(0, len(cs)): if not cs\[i\].check(xs\[i\]): return False] *)
Fixpoint each_checks (cs : list A) (xs : list B) : result bool :=
  match cs, xs with
  | [], _ => Ok true
  | _ :: _, [] => Err IndexError
  | c :: cs', x :: xs' => b <- f c x ;; if b then each_checks cs' xs' else Ok false
  end.
End Positional.

(** ** Range predicate ([Util.make_range_check])

    The closure returned by [make_range_check] is its captured dictionary
    [range]; [check_range] is the body of the closure.  Every caller passes
    a number as [value] (an [int] or [float] that went through the
    [isinstance] test, or a [len]). *)

Definition range_dict : Type := list (string * value).

Definition range_keys : list string := ["min"; "max"; "min-ex"; "max-ex"].

Fixpoint copy_range (entries : list string) (opt range : list (string * value))
  : result range_dict :=
  match entries with
  | [] => Ok range
  | entry :: entries' =>
      raise_if negb (str_in entry range_keys)
        then ValueError "illegal argument to make_range_check" ;;
      v <- dict_item opt entry ;;
      copy_range entries' opt (dict_set range entry v)
  end.

Definition make_range_check (opt : value) : result range_dict :=
  match opt with
  | VDict d => copy_range (dict_keys d) d []
  | _ => Err AttributeError
  end.

(** [range.get(key) is not None and op(value, range\[key\])] *)
Definition bound_hit (range : range_dict) (key : string)
    (op : number -> number -> bool) (value : number) : result bool :=
  match dict_get range key with
  | None | Some VNone => Ok false
  | Some b =>
      match as_ordered b with
      | Some m => Ok (op value m)
      | None => Err TypeError
      end
  end.

Definition check_range (range : range_dict) (value : number) : result bool :=
  lo <- bound_hit range "min" num_lt value ;;
  if lo then Ok false else
  lo_ex <- bound_hit range "min-ex" num_le value ;;
  if lo_ex then Ok false else
  hi_ex <- bound_hit range "max-ex" num_ge value ;;
  if hi_ex then Ok false else
  hi <- bound_hit range "max" num_gt value ;;
  if hi then Ok false else
  Ok true.

(** [self.range and not self.range(value)]: a closure is always true in a
    condition, [None] is not. *)
Definition outside (range : option range_dict) (value : number) : result bool :=
  match range with
  | None => Ok false
  | Some r => b <- check_range r value ;; Ok (negb b)
  end.

(** ** Validator trees: one constructor per core type, holding the
    attributes its [__init__] sets *)

Inductive tree : Type :=
| AllType (alts : list tree)
| AnyType (alts : option (list tree))
| ArrType (content_schema : tree) (length : option range_dict)
| BoolType
| DefType
| FailType
| IntType (value : option number) (range : option range_dict)
| MapType (value_schema : tree)
| NilType
| NumType (value : option number) (range : option range_dict)
| OneType
| RecType (known : list string) (rest_schema : option tree)
          (required optional : list (string * tree))
| SeqType (content_schema : list tree) (tail_schema : option tree)
| StrType (value : option string) (length : option range_dict).

(** [(not self.value is None) and value != self.value] *)
Definition differs_num (expected : option number) (value : number) : bool :=
  match expected with
  | None => false
  | Some v => num_ne value v
  end.

Definition differs_str (expected : option string) (value : string) : bool :=
  match expected with
  | None => false
  | Some v => negb (String.eqb value v)
  end.

(** [unknown]: the keys of [value] that are not in [self.known]. *)
Definition unknown_fields (known : list string) (d : list (string * value)) : list string :=
  filter (fun field => negb (str_in field known)) (dict_keys d).

(** [rest = {}; for field in unknown: rest\[field\] = value\[field\]] *)
Fixpoint build_rest (unknown : list string) (d rest : list (string * value))
  : result (list (string * value)) :=
  match unknown with
  | [] => Ok rest
  | field :: unknown' =>
      v <- dict_item d field ;;
      build_rest unknown' d (dict_set rest field v)
  end.

Definition len_of (l : list value) : number := NInt (Z.of_nat (List.length l)).

(** ** [check] of the fourteen core types *)

Fixpoint check (t : tree) (value : value) {struct t} : result bool :=
  match t with
  | AllType alts =>
      all_checks (fun schema => check schema value) alts
  | AnyType None => Ok true
  | AnyType (Some alts) =>
      any_checks (fun alt => check alt value) alts
  | ArrType content_schema length =>
      match value with
      | VList items =>
          out <- outside length (len_of items) ;;
          if out then Ok false else
          all_checks (fun item => check content_schema item) items
      | _ => Ok false
      end
  | BoolType =>
      match value with VBool _ => Ok true | _ => Ok false end
  | DefType =>
      match value with VNone => Ok false | _ => Ok true end
  | FailType => Ok false
  | IntType expected range =>
      match as_num value with
      | None => Ok false
      | Some n =>
          if mod1_nonzero n then Ok false else
          out <- outside range n ;;
          if out then Ok false else
          if differs_num expected n then Ok false else
          Ok true
      end
  | MapType value_schema =>
      match value with
      | VDict d => all_checks (fun v => check value_schema v) (dict_values d)
      | _ => Ok false
      end
  | NilType =>
      match value with VNone => Ok true | _ => Ok false end
  | NumType expected range =>
      match as_num value with
      | None => Ok false
      | Some n =>
          out <- outside range n ;;
          if out then Ok false else
          if differs_num expected n then Ok false else
          Ok true
      end
  | OneType =>
      match value with
      | VInt _ | VFloat _ | VStr _ | VBool _ => Ok true
      | _ => Ok false
      end
  | RecType known rest_schema required optional =>
      match value with
      | VDict d =>
          let unknown := unknown_fields known d in
          match unknown, rest_schema with
          | _ :: _, None => Ok false
          | _, _ =>
              req <- all_checks
                       (fun fs : string * tree =>
                          match dict_get d (fst fs) with
                          | None => Ok false
                          | Some v => check (snd fs) v
                          end) required ;;
              if negb req then Ok false else
              opt <- all_checks
                       (fun fs : string * tree =>
                          match dict_get d (fst fs) with
                          | None => Ok true
                          | Some v => check (snd fs) v
                          end) optional ;;
              if negb opt then Ok false else
              match unknown, rest_schema with
              | [], _ => Ok true
              | _ :: _, None => Err AttributeError
              | _ :: _, Some rs =>
                  rest <- build_rest unknown d [] ;;
                  check rs (VDict rest)
              end
          end
      | _ => Ok false
      end
  | SeqType content_schema tail_schema =>
      match value with
      | VList items =>
          let n := List.length content_schema in
          if Nat.ltb (List.length items) n then Ok false else
          fst_ok <- each_checks (fun schema item => check schema item)
                      content_schema items ;;
          if negb fst_ok then Ok false else
          if Nat.ltb n (List.length items) then
            match tail_schema with
            | None => Ok false
            | Some ts => check ts (VList (skipn n items))
            end
          else Ok true
      | _ => Ok false
      end
  | StrType expected length =>
      match value with
      | VStr s =>
          if differs_str expected s then Ok false else
          out <- outside length (NInt (Z.of_nat (String.length s))) ;;
          if out then Ok false else
          Ok true
      | _ => Ok false
      end
  end.

(** ** Regular expressions of [Factory.expand_uri] *)

Definition in_range (lo hi c : ascii) : bool :=
  (nat_of_ascii lo <=? nat_of_ascii c)%nat && (nat_of_ascii c <=? nat_of_ascii hi)%nat.

(** [\w] on ASCII text *)
Definition is_word (c : ascii) : bool :=
  (in_range "a" "z" c || in_range "A" "Z" c || in_range "0" "9" c
   || Ascii.eqb c "_")%char.

(** [\[-._a-z0-9\]] *)
Definition is_name (c : ascii) : bool :=
  (Ascii.eqb c "-" || Ascii.eqb c "." || Ascii.eqb c "_"
   || in_range "a" "z" c || in_range "0" "9" c)%char.

(** The longest prefix of [s] made of characters satisfying [p], and what
    follows it. *)
Fixpoint span (p : ascii -> bool) (s : string) : string * string :=
  match s with
  | String c s' =>
      if p c then let (run, rest) := span p s' in (String c run, rest)
      else (EmptyString, s)
  | EmptyString => (EmptyString, EmptyString)
  end.

(** [re.match('^\w+:', s)] succeeds *)
Definition match_absolute (s : string) : bool :=
  match span is_word s with
  | (String _ _, String ":" _) => true
  | _ => false
  end.

Definition newline : string := String (ascii_of_nat 10) EmptyString.

(** The second [re.match] of [expand_uri]: a slash, any number of name
    characters (group 1), a slash, one or more name characters (group 2),
    then [$], which also matches just before a final line feed. *)
Definition match_prefixed (s : string) : option (string * string) :=
  match s with
  | String "/" s1 =>
      match span is_name s1 with
      | (prefix, String "/" s2) =>
          match span is_name s2 with
          | (String c local, rest) =>
              if String.eqb rest EmptyString || String.eqb rest newline
              then Some (prefix, String c local)
              else None
          | _ => None
          end
      | _ => None
      end
  | _ => None
  end.

(** ** The factory *)

Inductive core_type : Type :=
| All | Any | Arr | Bool | Def | Fail | Int | Map | Nil | Num | One | Rec | Seq | Str.

Definition subname (t : core_type) : string :=
  match t with
  | All => "all" | Any => "any" | Arr => "arr" | Bool => "bool" | Def => "def"
  | Fail => "fail" | Int => "int" | Map => "map" | Nil => "nil" | Num => "num"
  | One => "one" | Rec => "rec" | Seq => "seq" | Str => "str"
  end.

Definition uri (t : core_type) : string :=
  "tag:codesimply.com,2008:rx/core/" ++ subname t.

Definition core_types : list core_type :=
  [All; Any; Arr; Bool; Def; Fail; Int; Map; Nil; Num; One; Rec; Seq; Str].

(** A registry entry is a core class or the dictionary [{"schema": schema}]
    that [learn_type] stores. *)
Inductive entry : Type :=
| Builtin (t : core_type)
| Alias (schema : value).

Record Factory : Type := mkFactory {
  prefix_registry : list (string * string);
  type_registry : list (string * entry)
}.

Definition set_prefixes (F : Factory) (p : list (string * string)) : Factory :=
  mkFactory p (type_registry F).
Definition set_types (F : Factory) (t : list (string * entry)) : Factory :=
  mkFactory (prefix_registry F) t.

(** A method that mutates the factory returns what it raised, if anything,
    and the factory as the call leaves it. *)
Definition method : Type := Factory -> result unit * Factory.

Definition expand_uri (F : Factory) (type_name : value) : result string :=
  match type_name with
  | VStr s =>
      if match_absolute s then Ok s else
      match match_prefixed s with
      | None => Err (RxError ("couldn't understand type name '" ++ s ++ "'"))
      | Some (prefix, local) =>
          match dict_get (prefix_registry F) prefix with
          | None | Some EmptyString =>
              Err (RxError ("unknown prefix '" ++ prefix ++ "' in type name '" ++ s ++ "'"))
          | Some base => Ok (base ++ local)
          end
      end
  | _ => Err TypeError
  end.

Definition add_prefix (name base : string) : method := fun F =>
  match dict_get (prefix_registry F) name with
  | None | Some EmptyString =>
      (Ok tt, set_prefixes F (dict_set (prefix_registry F) name base))
  | Some _ =>
      (Err (RxError ("the prefix '" ++ name ++ "' is already registered")), F)
  end.

Definition register_type (t : core_type) : method := fun F =>
  let t_uri := uri t in
  match dict_get (type_registry F) t_uri with
  | Some _ => (Err (ValueError ("type already registered for " ++ t_uri)), F)
  | None => (Ok tt, set_types F (dict_set (type_registry F) t_uri (Builtin t)))
  end.

Fixpoint register_all (ts : list core_type) : method := fun F =>
  match ts with
  | [] => (Ok tt, F)
  | t :: ts' =>
      match register_type t F with
      | (Ok _, F') => register_all ts' F'
      | failed => failed
      end
  end.

(** [Factory(opt)] with [opt.get("register_core_types", False)] *)
Definition new_factory (register_core_types : bool) : result unit * Factory :=
  let F := mkFactory
             [(EmptyString, "tag:codesimply.com,2008:rx/core/");
              (".meta", "tag:codesimply.com,2008:rx/meta/")] [] in
  if register_core_types then register_all core_types F else (Ok tt, F).

(** ** Compilation

    [comp A] is what a computation that calls [make_schema] yields: [None]
    when the recursion budget ran out, else what it returned or raised. *)

Definition comp (A : Type) : Type := option (result A).

Definition ret {A : Type} (a : A) : comp A := Some (Ok a).
Definition throw {A : Type} (e : error) : comp A := Some (Err e).
Definition lift {A : Type} (r : result A) : comp A := Some r.

Definition cbind {A B : Type} (m : comp A) (k : A -> comp B) : comp B :=
  match m with
  | None => None
  | Some (Err e) => Some (Err e)
  | Some (Ok a) => k a
  end.

Declare Scope comp_scope.
Delimit Scope comp_scope with comp.
Notation "x <- m ;; k" := (cbind m (fun x => k))
  (at level 61, m at next level, right associativity) : comp_scope.
Notation "'raise_if' c 'then' e ;; k" := (if c then throw e else k)
  (at level 61, c at next level, e at next level, right associativity) : comp_scope.

(** [len(v)] *)
Definition py_len (v : value) : result nat :=
  match v with
  | VStr s => Ok (String.length s)
  | VList l => Ok (List.length l)
  | VDict d => Ok (List.length d)
  | _ => Err TypeError
  end.

Fixpoint chars (s : string) : list value :=
  match s with
  | EmptyString => []
  | String c s' => VStr (String c EmptyString) :: chars s'
  end.

(** [for x in v]: the items of a list, the characters of a string, the keys
    of a dictionary. *)
Definition py_iter (v : value) : result (list value) :=
  match v with
  | VStr s => Ok (chars s)
  | VList l => Ok l
  | VDict d => Ok (map VStr (dict_keys d))
  | _ => Err TypeError
  end.

(** [v.keys()] *)
Definition py_keys (v : value) : result (list string) :=
  match v with
  | VDict d => Ok (dict_keys d)
  | _ => Err AttributeError
  end.

(** [v\[k\]] for a string key [k] *)
Definition py_item (v : value) (k : string) : result value :=
  match v with
  | VDict d => dict_item d k
  | _ => Err TypeError
  end.

(** [schema.get(k)] in a condition *)
Definition given (schema : list (string * value)) (k : string) : bool :=
  match dict_get schema k with
  | Some v => truthy v
  | None => false
  end.

Definition unknown_parameter (name : string) : error :=
  RxError ("unknown parameter for //" ++ name).

Section Constructors.
(** [rx.make_schema] *)
Variable make_schema : value -> comp tree.

Local Open Scope comp_scope.

(** [\[rx.make_schema(s) for s in xs\]] *)
Fixpoint make_each (xs : list value) : comp (list tree) :=
  match xs with
  | [] => ret []
  | s :: xs' =>
      t <- make_schema s ;;
      ts <- make_each xs' ;;
      ret (t :: ts)
  end.

(** [_CoreType.__init__], inherited by bool, def, fail, nil and one *)
Definition init_plain (t : core_type) (node : tree) (schema : list (string * value))
  : comp tree :=
  raise_if negb (keys_within (dict_keys schema) ["type"])
    then unknown_parameter (subname t) ;;
  ret node.

Definition init_all (schema : list (string * value)) : comp tree :=
  raise_if negb (keys_within (dict_keys schema) ["type"; "of"])
    then unknown_parameter "all" ;;
  match dict_get schema "of" with
  | None => throw (RxError "no alternatives given in //all of")
  | Some alts =>
      if negb (truthy alts) then throw (RxError "no alternatives given in //all of") else
      n <- lift (py_len alts) ;;
      raise_if Nat.eqb n 0 then RxError "no alternatives given in //all of" ;;
      xs <- lift (py_iter alts) ;;
      ts <- make_each xs ;;
      ret (AllType ts)
  end.

Definition init_any (schema : list (string * value)) : comp tree :=
  raise_if negb (keys_within (dict_keys schema) ["type"; "of"])
    then unknown_parameter "any" ;;
  match dict_get schema "of" with
  | None | Some VNone => ret (AnyType None)
  | Some alts =>
      raise_if negb (truthy alts) then RxError "no alternatives given in //any of" ;;
      xs <- lift (py_iter alts) ;;
      ts <- make_each xs ;;
      ret (AnyType (Some ts))
  end.

(** [if schema.get(k): ... = Util.make_range_check(schema\[k\])] *)
Definition range_if_given (schema : list (string * value)) (k : string)
  : comp (option range_dict) :=
  if given schema k then
    opt <- lift (dict_item schema k) ;;
    r <- lift (make_range_check opt) ;;
    ret (Some r)
  else ret None.

(** [if k in schema: ... = Util.make_range_check(schema\[k\])] *)
Definition range_if_present (schema : list (string * value)) (k : string)
  : comp (option range_dict) :=
  match dict_get schema k with
  | Some opt =>
      r <- lift (make_range_check opt) ;;
      ret (Some r)
  | None => ret None
  end.

Definition init_arr (schema : list (string * value)) : comp tree :=
  raise_if negb (keys_within (dict_keys schema) ["type"; "contents"; "length"])
    then unknown_parameter "arr" ;;
  raise_if negb (given schema "contents")
    then RxError "no contents provided for //arr" ;;
  contents <- lift (dict_item schema "contents") ;;
  content_schema <- make_schema contents ;;
  length <- range_if_given schema "length" ;;
  ret (ArrType content_schema length).

Definition init_int (schema : list (string * value)) : comp tree :=
  raise_if negb (keys_within (dict_keys schema) ["type"; "range"; "value"])
    then unknown_parameter "int" ;;
  value <-
    match dict_get schema "value" with
    | None => ret None
    | Some v =>
        match as_num v with
        | None => throw (RxError "invalid value parameter for //int")
        | Some n =>
            raise_if mod1_nonzero n
              then RxError "invalid value parameter for //int" ;;
            ret (Some n)
        end
    end ;;
  range <- range_if_present schema "range" ;;
  ret (IntType value range).

Definition init_map (schema : list (string * value)) : comp tree :=
  raise_if negb (keys_within (dict_keys schema) ["type"; "values"])
    then unknown_parameter "map" ;;
  raise_if negb (given schema "values") then RxError "no values given for //map" ;;
  values <- lift (dict_item schema "values") ;;
  value_schema <- make_schema values ;;
  ret (MapType value_schema).

Definition init_num (schema : list (string * value)) : comp tree :=
  raise_if negb (keys_within (dict_keys schema) ["type"; "range"; "value"])
    then unknown_parameter "num" ;;
  value <-
    match dict_get schema "value" with
    | None => ret None
    | Some v =>
        match as_num v with
        | None => throw (RxError "invalid value parameter for //num")
        | Some n => ret (Some n)
        end
    end ;;
  range <- range_if_given schema "range" ;;
  ret (NumType value range).

(** The inner loop of [RecType.__init__] over the fields of one of
    [required] and [optional]: [known] is [self.known], [fields] the
    dictionary being filled. *)
Fixpoint init_fields (names : list string) (defs : value)
    (known : list string) (fields : list (string * tree))
  : comp (list string * list (string * tree)) :=
  match names with
  | [] => ret (known, fields)
  | field :: names' =>
      raise_if str_in field known
        then RxError (field ++ " appears in both required and optional") ;;
      def <- lift (py_item defs field) ;;
      t <- make_schema def ;;
      init_fields names' defs (known ++ [field]) (dict_set fields field t)
  end.

(** [schema.get(which, {})] and the loop over its [keys()] *)
Definition init_which (schema : list (string * value)) (which : string)
    (known : list string) : comp (list string * list (string * tree)) :=
  let defs := match dict_get schema which with Some v => v | None => VDict [] end in
  names <- lift (py_keys defs) ;;
  init_fields names defs known [].

Definition init_rec (schema : list (string * value)) : comp tree :=
  raise_if negb (keys_within (dict_keys schema) ["type"; "rest"; "required"; "optional"])
    then unknown_parameter "rec" ;;
  rest_schema <-
    (if given schema "rest" then
       rest <- lift (dict_item schema "rest") ;;
       t <- make_schema rest ;;
       ret (Some t)
     else ret None) ;;
  req <- init_which schema "required" [] ;;
  opt <- init_which schema "optional" (fst req) ;;
  ret (RecType (fst opt) rest_schema (snd req) (snd opt)).

Definition init_seq (schema : list (string * value)) : comp tree :=
  raise_if negb (keys_within (dict_keys schema) ["type"; "contents"; "tail"])
    then unknown_parameter "seq" ;;
  raise_if negb (given schema "contents")
    then RxError "no contents provided for //seq" ;;
  contents <- lift (dict_item schema "contents") ;;
  xs <- lift (py_iter contents) ;;
  content_schema <- make_each xs ;;
  tail_schema <-
    (if given schema "tail" then
       tail <- lift (dict_item schema "tail") ;;
       t <- make_schema tail ;;
       ret (Some t)
     else ret None) ;;
  ret (SeqType content_schema tail_schema).

Definition init_str (schema : list (string * value)) : comp tree :=
  raise_if negb (keys_within (dict_keys schema) ["type"; "value"; "length"])
    then unknown_parameter "str" ;;
  value <-
    match dict_get schema "value" with
    | None => ret None
    | Some (VStr s) => ret (Some s)
    | Some _ => throw (RxError "invalid value parameter for //str")
    end ;;
  length <- range_if_present schema "length" ;;
  ret (StrType value length).

(** [type_class(schema, self)] *)
Definition construct (t : core_type) (schema : list (string * value)) : comp tree :=
  match t with
  | All => init_all schema
  | Any => init_any schema
  | Arr => init_arr schema
  | Bool => init_plain Bool BoolType schema
  | Def => init_plain Def DefType schema
  | Fail => init_plain Fail FailType schema
  | Int => init_int schema
  | Map => init_map schema
  | Nil => init_plain Nil NilType schema
  | Num => init_num schema
  | One => init_plain One OneType schema
  | Rec => init_rec schema
  | Seq => init_seq schema
  | Str => init_str schema
  end.
End Constructors.

(** [Factory.make_schema(schema)] (with [trace] left at its default, false),
    [fuel] nested calls allowed *)
Fixpoint make_schema (fuel : nat) (F : Factory) (schema : value) : comp tree :=
  match fuel with
  | O => None
  | S fuel' =>
      let schema :=
        match schema with
        | VStr s => VDict [("type", VStr s)]
        | _ => schema
        end in
      match schema with
      | VDict d =>
          (type_name <- lift (dict_item d "type") ;;
           uri <- lift (expand_uri F type_name) ;;
           match dict_get (type_registry F) uri with
           | None => throw (RxError ("unknown type " ++ uri))
           | Some (Alias aliased) =>
               raise_if negb (keys_within (dict_keys d) ["type"])
                 then RxError "composed type does not take check arguments" ;;
               make_schema fuel' F aliased
           | Some (Builtin t) => construct (make_schema fuel' F) t d
           end)%comp
      | _ => throw (RxError "invalid schema argument to make_schema")
      end
  end.

(** [Factory.learn_type(uri, schema)] *)
Definition learn_type (fuel : nat) (uri : string) (schema : value) (F : Factory)
  : option (result unit * Factory) :=
  match dict_get (type_registry F) uri with
  | Some _ =>
      Some (Err (RxError ("tried to learn type for already-registered uri " ++ uri)), F)
  | None =>
      match make_schema fuel F schema with
      | None => None
      | Some (Err e) => Some (Err e, F)
      | Some (Ok _) =>
          Some (Ok tt, set_types F (dict_set (type_registry F) uri (Alias schema)))
      end
  end.

(** ** Trees whose range bounds can be ordered against a number *)

(** A bound is usable when it is [None] (skipped by [check_range]) or a
    number. *)
Definition bound_ok (b : value) : bool :=
  match b with
  | VNone => true
  | _ => match as_ordered b with Some _ => true | None => false end
  end.

Definition range_ok (r : range_dict) : bool :=
  forallb (fun k => match dict_get r k with
                    | None => true
                    | Some b => bound_ok b
                    end) range_keys.

Definition opt_range_ok (r : option range_dict) : bool :=
  match r with
  | None => true
  | Some r => range_ok r
  end.

Fixpoint bounds_ok (t : tree) : bool :=
  match t with
  | AllType alts => forallb bounds_ok alts
  | AnyType None => true
  | AnyType (Some alts) => forallb bounds_ok alts
  | ArrType content_schema length => bounds_ok content_schema && opt_range_ok length
  | IntType _ range => opt_range_ok range
  | MapType value_schema => bounds_ok value_schema
  | NumType _ range => opt_range_ok range
  | RecType _ rest_schema required optional =>
      match rest_schema with None => true | Some rs => bounds_ok rs end
      && forallb (fun fs : string * tree => bounds_ok (snd fs)) required
      && forallb (fun fs : string * tree => bounds_ok (snd fs)) optional
  | SeqType content_schema tail_schema =>
      forallb bounds_ok content_schema
      && match tail_schema with None => true | Some ts => bounds_ok ts end
  | StrType _ length => opt_range_ok length
  | BoolType | DefType | FailType | NilType | OneType => true
  end.

(** A check that returned [True], and one that returned [False]. *)
Definition accepts (t : tree) (v : value) : Prop := check t v = Ok true.
Definition rejects (t : tree) (v : value) : Prop := check t v = Ok false.

(** [compiles F d r]: [make_schema(d)] on factory [F] ends with [r]. *)
Definition compiles (F : Factory) (d : value) (r : result tree) : Prop :=
  exists fuel, make_schema fuel F d = Some r.

(** The factory with the fourteen core types registered. *)
Definition core_factory : Factory := snd (new_factory true).

(** ** Induction on validator trees *)

Section TreeInduction.
Variable P : tree -> Prop.

Definition on_option (o : option tree) : Prop :=
  match o with Some t => P t | None => True end.

Hypothesis P_all : forall alts, Forall P alts -> P (AllType alts).
Hypothesis P_any_open : P (AnyType None).
Hypothesis P_any : forall alts, Forall P alts -> P (AnyType (Some alts)).
Hypothesis P_arr : forall c l, P c -> P (ArrType c l).
Hypothesis P_bool : P BoolType.
Hypothesis P_def : P DefType.
Hypothesis P_fail : P FailType.
Hypothesis P_int : forall v r, P (IntType v r).
Hypothesis P_map : forall c, P c -> P (MapType c).
Hypothesis P_nil : P NilType.
Hypothesis P_num : forall v r, P (NumType v r).
Hypothesis P_one : P OneType.
Hypothesis P_rec : forall known rest req opt,
    on_option rest ->
    Forall (fun fs : string * tree => P (snd fs)) req ->
    Forall (fun fs : string * tree => P (snd fs)) opt ->
    P (RecType known rest req opt).
Hypothesis P_seq : forall cs tl, Forall P cs -> on_option tl -> P (SeqType cs tl).
Hypothesis P_str : forall v l, P (StrType v l).

Fixpoint tree_induction (t : tree) : P t :=
  let many :=
    fix many (ts : list tree) : Forall P ts :=
      match ts with
      | [] => Forall_nil P
      | t' :: ts' => Forall_cons t' (tree_induction t') (many ts')
      end in
  let fields :=
    fix fields (fs : list (string * tree))
      : Forall (fun fs : string * tree => P (snd fs)) fs :=
      match fs with
      | [] => Forall_nil _
      | f :: fs' => Forall_cons f (tree_induction (snd f)) (fields fs')
      end in
  let maybe := fun o : option tree =>
    match o return on_option o with
    | Some t' => tree_induction t'
    | None => I
    end in
  match t with
  | AllType alts => P_all alts (many alts)
  | AnyType None => P_any_open
  | AnyType (Some alts) => P_any alts (many alts)
  | ArrType c l => P_arr c l (tree_induction c)
  | BoolType => P_bool
  | DefType => P_def
  | FailType => P_fail
  | IntType v r => P_int v r
  | MapType c => P_map c (tree_induction c)
  | NilType => P_nil
  | NumType v r => P_num v r
  | OneType => P_one
  | RecType known rest req opt =>
      P_rec known rest req opt (maybe rest) (fields req) (fields opt)
  | SeqType cs tl => P_seq cs tl (many cs) (maybe tl)
  | StrType v l => P_str v l
  end.
End TreeInduction.

(** ** Vocabulary of the statements *)

(** A number with zero fractional part: an [int], or a finite float whose
    value is an integer. *)
Definition integral (n : number) : Prop :=
  match n with
  | NInt _ => True
  | NFloat (FFin q) => exists z, Qeq q (inject_Z z)
  | NFloat _ => False
  end.

(** Bound [key] of [range] is set, to the number [m]. *)
Definition bound_at (range : range_dict) (key : string) (m : number) : Prop :=
  exists b, dict_get range key = Some b /\ b <> VNone /\ as_ordered b = Some m.

(** The four ways a candidate falls outside a range. *)
Definition out_of_range (range : range_dict) (n : number) : Prop :=
  (exists m, bound_at range "min" m /\ num_lt n m = true) \/
  (exists m, bound_at range "min-ex" m /\ num_le n m = true) \/
  (exists m, bound_at range "max-ex" m /\ num_ge n m = true) \/
  (exists m, bound_at range "max" m /\ num_gt n m = true).

(** [m'] ends as [m] does, whenever [m] ends. *)
Definition extends {A : Type} (m m' : comp A) : Prop :=
  forall r, m = Some r -> m' = Some r.




(** The one compile-time error kind is [RxError]. *)
Definition is_compile_error (e : error) : bool :=
  match e with
  | RxError _ => true
  | _ => false
  end.

(** ** Definitions and values of the examples *)

(** [{"type": "//int", "range": {"min": "a"}}] *)
Definition int_min_text : value :=
  VDict [("type", VStr "//int"); ("range", VDict [("min", VStr "a")])].

(** An array of at most three integers in [1, 5). *)
Definition arr_of_small_ints : value :=
  VDict [("type", VStr "//arr");
         ("contents", VDict [("type", VStr "//int");
                             ("range", VDict [("min", VInt 1); ("max-ex", VInt 5)])]);
         ("length", VDict [("max", VInt 3)])].

(** The tree that [arr_of_small_ints] compiles to. *)
Definition arr_of_small_ints_tree : tree :=
  ArrType (IntType None (Some [("min", VInt 1); ("max-ex", VInt 5)]))
          (Some [("max", VInt 3)]).

(** [{"min": 1, "max-ex": 5}] *)
Definition half_open : range_dict := [("min", VInt 1); ("max-ex", VInt 5)].

(** [{"type": "//int", "value": 5}] *)
Definition int_five : value := VDict [("type", VStr "//int"); ("value", VInt 5)].







(** A mapping without a "type" key. *)
Definition contents_only : value := VDict [("contents", VStr "//int")].

(** [learn_type("tag:x:/y", "//str")] on the core factory *)
Definition learned_uri : string := "tag:x:/y".

Definition factory_with_alias : Factory :=
  match learn_type 1 learned_uri (VStr "//str") core_factory with
  | Some (_, F) => F
  | None => core_factory
  end.

(** [Factory()]: no type registered, the two builtin prefixes. *)
Definition bare_factory : Factory := snd (new_factory false).

(** The factory after [add_prefix] of the name "p" with the empty string as
    its base. *)
Definition factory_with_empty_prefix : Factory := snd (add_prefix "p" EmptyString bare_factory).

(** ** Vocabulary of the further properties *)

(** [F'] has every type entry of [F], and every prefix of [F] whose base is
    not empty, unchanged. *)
Definition grows (F F' : Factory) : Prop :=
  (forall name base,
      dict_get (prefix_registry F) name = Some base -> base <> EmptyString ->
      dict_get (prefix_registry F') name = Some base)
  /\ (forall u e,
        dict_get (type_registry F) u = Some e ->
        dict_get (type_registry F') u = Some e).

(** [m'] returns what [m] returns, whenever [m] returns. *)
Definition keeps_ok {A : Type} (m m' : comp A) : Prop :=
  forall a, m = Some (Ok a) -> m' = Some (Ok a).

(** The factories that the methods of [Factory] can build. *)
Inductive reachable : Factory -> Prop :=
| reach_new core : reachable (snd (new_factory core))
| reach_add_prefix F name base :
    reachable F -> reachable (snd (add_prefix name base F))
| reach_register_type F t :
    reachable F -> reachable (snd (register_type t F))
| reach_learn_type F fuel uri def r F' :
    reachable F -> learn_type fuel uri def F = Some (r, F') -> reachable F'.

(** Every learned definition in the registry compiles. *)
Definition aliases_compile (F : Factory) : Prop :=
  forall u aliased, In (u, Alias aliased) (type_registry F) ->
    exists fuel t, make_schema fuel F aliased = Some (Ok t).

(** The parameter keys that the constructor of each core type accepts
    beside "type". *)
Definition parameters (t : core_type) : list string :=
  match t with
  | All | Any => ["of"]
  | Arr => ["contents"; "length"]
  | Int | Num => ["range"; "value"]
  | Map => ["values"]
  | Rec => ["rest"; "required"; "optional"]
  | Seq => ["contents"; "tail"]
  | Str => ["value"; "length"]
  | Bool | Def | Fail | Nil | One => []
  end.

(** Every character of [s] satisfies [p]. *)
Fixpoint all_chars (p : ascii -> bool) (s : string) : bool :=
  match s with
  | EmptyString => true
  | String c s' => p c && all_chars p s'
  end.

(** How deep sequences and mappings are nested in a value. *)
Fixpoint depth (v : value) : nat :=
  match v with
  | VList l => S (fold_right (fun x n => Nat.max (depth x) n) 0%nat l)
  | VDict d => S (fold_right (fun kv n => Nat.max (depth (snd kv)) n) 0%nat d)
  | _ => 0%nat
  end.

(** The computation ends within its recursion budget. *)
Definition halts {A : Type} (m : comp A) : Prop := m <> None.

(** The keys of a range predicate are among min, max, min-ex and max-ex. *)
Definition range_keys_ok (range : option range_dict) : Prop :=
  match range with
  | Some r => keys_within (dict_keys r) range_keys = true
  | None => True
  end.

(** What the constructors establish, at every node of a tree: alternatives
    and sequence contents are not empty, the [value] of an int validator is
    integral, the known fields of a rec validator are its required fields
    followed by its optional fields, each named once. *)
Inductive well_formed : tree -> Prop :=
| ok_all alts :
    alts <> [] -> Forall well_formed alts -> well_formed (AllType alts)
| ok_any_open : well_formed (AnyType None)
| ok_any alts :
    alts <> [] -> Forall well_formed alts -> well_formed (AnyType (Some alts))
| ok_arr c l : well_formed c -> range_keys_ok l -> well_formed (ArrType c l)
| ok_bool : well_formed BoolType
| ok_def : well_formed DefType
| ok_fail : well_formed FailType
| ok_int v r :
    (forall n, v = Some n -> integral n) -> range_keys_ok r ->
    well_formed (IntType v r)
| ok_map c : well_formed c -> well_formed (MapType c)
| ok_nil : well_formed NilType
| ok_num v r : range_keys_ok r -> well_formed (NumType v r)
| ok_one : well_formed OneType
| ok_rec known rest req opt :
    known = (dict_keys req ++ dict_keys opt)%list ->
    NoDup known ->
    (forall rs, rest = Some rs -> well_formed rs) ->
    Forall (fun fs : string * tree => well_formed (snd fs)) req ->
    Forall (fun fs : string * tree => well_formed (snd fs)) opt ->
    well_formed (RecType known rest req opt)
| ok_seq cs tl :
    cs <> [] -> Forall well_formed cs ->
    (forall ts, tl = Some ts -> well_formed ts) ->
    well_formed (SeqType cs tl)
| ok_str v l : range_keys_ok l -> well_formed (StrType v l).

(** ** Numbers and bounds, read off their constructors *)

(** [x] is a number that is not a boolean, and [n] is that number. *)
Inductive numeric : value -> number -> Prop :=
| numeric_int z : numeric (VInt z) (NInt z)
| numeric_float f : numeric (VFloat f) (NFloat f).

(** The exact value of a number: an integer is the rational with
    denominator 1. *)
Definition exact (n : number) : pyfloat :=
  match n with
  | NInt z => FFin (z # 1)
  | NFloat f => f
  end.

(** [a < b], [a <= b] and [a == b] on exact values, in the order of the
    rationals extended by the two infinities; nothing is below, above or
    equal to NaN. *)
Definition less (a b : number) : Prop :=
  match exact a, exact b with
  | FFin p, FFin q => (p < q)%Q
  | FInf true, FFin _ | FInf true, FInf false | FFin _, FInf false => True
  | _, _ => False
  end.

Definition at_most (a b : number) : Prop :=
  match exact a, exact b with
  | FFin p, FFin q => (p <= q)%Q
  | FInf true, FInf true | FInf false, FInf false => True
  | FInf true, FFin _ | FInf true, FInf false | FFin _, FInf false => True
  | _, _ => False
  end.

Definition same_number (a b : number) : Prop :=
  match exact a, exact b with
  | FFin p, FFin q => Qeq p q
  | FInf s, FInf s' => s = s'
  | _, _ => False
  end.

(** A bound that is a number, and the number it is: an integer, a float,
    or a boolean, which counts as 1 or 0. *)
Inductive bound_value : value -> number -> Prop :=
| bound_int z : bound_value (VInt z) (NInt z)
| bound_float f : bound_value (VFloat f) (NFloat f)
| bound_true : bound_value (VBool true) (NInt 1)
| bound_false : bound_value (VBool false) (NInt 0).

(** Bound [key] of the mapping is set, to the number [m]. *)
Definition set_to (opt : range_dict) (key : string) (m : number) : Prop :=
  exists b, dict_get opt key = Some b /\ bound_value b m.

(** [n < min], [n <= min-ex], [n >= max-ex] or [n > max], for a bound that
    is set. *)
Definition outside_range (opt : range_dict) (n : number) : Prop :=
  (exists m, set_to opt "min" m /\ less n m) \/
  (exists m, set_to opt "min-ex" m /\ at_most n m) \/
  (exists m, set_to opt "max-ex" m /\ at_most m n) \/
  (exists m, set_to opt "max" m /\ less m n).

Definition number_or_null (b : value) : bool :=
  match b with
  | VNone | VBool _ | VInt _ | VFloat _ => true
  | _ => false
  end.

(** Each of the four bounds of the mapping is absent, null or a number. *)
Definition numeric_range (opt : range_dict) : bool :=
  forallb (fun k => match dict_get opt k with
                    | None => true
                    | Some b => number_or_null b
                    end) range_keys.

(** [{"max": 3, "max-ex": "a"}] *)
Definition max_and_text : range_dict := [("max", VInt 3); ("max-ex", VStr "a")].

(** [{"min-ex": 1, "max": 5}] *)
Definition left_open : range_dict := [("min-ex", VInt 1); ("max", VInt 5)].

(** The int validator with [{"min": "a"}] as its range. *)
Definition int_text_bound_tree : tree := IntType None (Some [("min", VStr "a")]).


Definition seq_text_bound_tree : tree := SeqType [int_text_bound_tree] None.


Definition rec_text_bound_tree : tree :=
  RecType ["a"] None [("a", int_text_bound_tree)] [].



(** * Properties *)

(** ** The error monad *)

Lemma bind_ok {A B : Type} (m : result A) (k : A -> result B) (b : B) :
  bind m k = Ok b <-> exists a, m = Ok a /\ k a = Ok b.
Proof.
  destruct m as [a | e]; simpl; split.
  - intros H. exists a. split; [reflexivity | exact H].
  - intros [a' [Ha H]]. injection Ha as ->. exact H.
  - discriminate.
  - intros [a' [Ha _]]. discriminate.
Qed.

Lemma cbind_ok {A B : Type} (m : comp A) (k : A -> comp B) (b : B) :
  cbind m k = Some (Ok b) <-> exists a, m = Some (Ok a) /\ k a = Some (Ok b).
Proof.
  destruct m as [[a | e] |]; simpl; split; try discriminate.
  - intros H. exists a. split; [reflexivity | exact H].
  - intros [a' [Ha H]]. injection Ha as ->. exact H.
  - intros [a' [Ha _]]. discriminate.
  - intros [a' [Ha _]]. discriminate.
Qed.

(** ** Dictionaries *)

Section DictFacts.
Context {V : Type}.
Implicit Types (d : list (string * V)) (k : string) (v : V).

Lemma dict_get_set d k v k' :
  dict_get (dict_set d k v) k' = if String.eqb k' k then Some v else dict_get d k'.
Proof.
  induction d as [| [k0 v0] d IH]; simpl.
  - reflexivity.
  - destruct (String.eqb k k0) eqn:E; simpl.
    + apply String.eqb_eq in E. subst k0.
      destruct (String.eqb k' k); reflexivity.
    + rewrite IH. destruct (String.eqb k' k0) eqn:E0; [| reflexivity].
      apply String.eqb_eq in E0. subst k0.
      rewrite String.eqb_sym, E. reflexivity.
Qed.

Lemma dict_get_in_keys d k :
  In k (dict_keys d) <-> exists v, dict_get d k = Some v.
Proof.
  induction d as [| [k0 v0] d IH]; simpl.
  - split; [tauto | intros [v H]; discriminate].
  - destruct (String.eqb k k0) eqn:E.
    + apply String.eqb_eq in E. subst k0. split; eauto.
    + apply String.eqb_neq in E. rewrite <- IH. split.
      * intros [H | H]; [congruence | exact H].
      * auto.
Qed.

Lemma dict_get_none d k :
  dict_get d k = None <-> ~ In k (dict_keys d).
Proof.
  rewrite dict_get_in_keys. destruct (dict_get d k) as [v |].
  - split; [discriminate | intros H; exfalso; eauto].
  - split; [intros _ [v H]; discriminate | reflexivity].
Qed.


Lemma dict_set_fresh d k v :
  ~ In k (dict_keys d) -> dict_set d k v = (d ++ [(k, v)])%list.
Proof.
  induction d as [| [k0 v0] d IH]; simpl; intros H; [reflexivity |].
  destruct (String.eqb k k0) eqn:E.
  - apply String.eqb_eq in E. subst k0. tauto.
  - rewrite IH by tauto. reflexivity.
Qed.

Lemma dict_keys_set d k v :
  dict_keys (dict_set d k v) =
  if str_in k (dict_keys d) then dict_keys d else (dict_keys d ++ [k])%list.
Proof.
  induction d as [| [k0 v0] d IH]; simpl; [reflexivity |].
  destruct (String.eqb k k0) eqn:E; simpl.
  - apply String.eqb_eq in E. subst k0. reflexivity.
  - rewrite IH. unfold str_in. destruct (existsb (String.eqb k) (dict_keys d)); reflexivity.
Qed.
End DictFacts.

Lemma str_in_In k ks : str_in k ks = true <-> In k ks.
Proof.
  unfold str_in. rewrite existsb_exists. split.
  - intros [x [Hx E]]. apply String.eqb_eq in E. subst x. exact Hx.
  - intros H. exists k. split; [exact H | apply String.eqb_refl].
Qed.

Lemma str_in_false k ks : str_in k ks = false <-> ~ In k ks.
Proof.
  rewrite <- str_in_In. destruct (str_in k ks); split; congruence.
Qed.

(** ** The loops *)

Section LoopFacts.
Context {A : Type} (f : A -> result bool).

Lemma all_checks_true xs :
  all_checks f xs = Ok true <-> Forall (fun x => f x = Ok true) xs.
Proof.
  induction xs as [| x xs IH]; simpl.
  - split; [constructor | reflexivity].
  - destruct (f x) as [[|] | e] eqn:E; simpl.
    + rewrite IH. split; [intros H; constructor; assumption |].
      intros H. inversion H. assumption.
    + split; [discriminate | intros H; inversion H; congruence].
    + split; [discriminate | intros H; inversion H; congruence].
Qed.

Lemma all_checks_total xs :
  Forall (fun x => exists b, f x = Ok b) xs -> exists b, all_checks f xs = Ok b.
Proof.
  induction 1 as [| x xs [b Hb] _ IH]; simpl; [eauto |].
  rewrite Hb. simpl. destruct b; eauto.
Qed.

Lemma any_checks_true xs :
  any_checks f xs = Ok true ->  Exists (fun x => f x = Ok true) xs.
Proof.
  induction xs as [| x xs IH]; simpl; [discriminate |].
  destruct (f x) as [[|] | e] eqn:E; simpl; try discriminate.
  - intros _. left. exact E.
  - intros H. right. auto.
Qed.

Lemma any_checks_total xs :
  Forall (fun x => exists b, f x = Ok b) xs -> exists b, any_checks f xs = Ok b.
Proof.
  induction 1 as [| x xs [b Hb] _ IH]; simpl; [eauto |].
  rewrite Hb. simpl. destruct b; eauto.
Qed.
End LoopFacts.

Section PositionalFacts.
Context {A B : Type} (f : A -> B -> result bool).


Lemma each_checks_total cs xs :
  (List.length cs <= List.length xs)%nat ->
  Forall (fun c => forall x, exists b, f c x = Ok b) cs ->
  exists b, each_checks f cs xs = Ok b.
Proof.
  intros Hlen H. revert xs Hlen.
  induction H as [| c cs Hc _ IH]; intros xs Hlen; simpl; [eauto |].
  destruct xs as [| x xs]; simpl in *; [lia |].
  destruct (Hc x) as [b Hb]. rewrite Hb. simpl.
  destruct b; [apply IH; lia | eauto].
Qed.
End PositionalFacts.

(** ** Range predicates never raise on usable bounds *)

Lemma bound_hit_total r k op n :
  match dict_get r k with None => true | Some b => bound_ok b end = true ->
  exists b, bound_hit r k op n = Ok b.
Proof.
  unfold bound_hit. destruct (dict_get r k) as [v |]; [| eauto].
  destruct v; simpl; intros H; eauto; discriminate.
Qed.

Lemma check_range_total r n :
  range_ok r = true -> exists b, check_range r n = Ok b.
Proof.
  unfold range_ok, range_keys. simpl. intros H.
  repeat (apply andb_prop in H; destruct H as [?H H]).
  unfold check_range.
  destruct (bound_hit_total r "min" num_lt n H0) as [b1 ->]. simpl.
  destruct b1; [eauto |].
  destruct (bound_hit_total r "max" num_gt n H1) as [b4 E4].
  destruct (bound_hit_total r "min-ex" num_le n H2) as [b2 ->]. simpl.
  destruct b2; [eauto |].
  destruct (bound_hit_total r "max-ex" num_ge n H3) as [b3 ->]. simpl.
  destruct b3; [eauto |].
  rewrite E4. simpl. destruct b4; eauto.
Qed.

Lemma outside_total r n :
  opt_range_ok r = true -> exists b, outside r n = Ok b.
Proof.
  destruct r as [r |]; simpl; [| eauto].
  intros H. destruct (check_range_total r n H) as [b ->]. simpl. eauto.
Qed.

(** ** [check] never raises on a tree with usable bounds *)

Lemma build_rest_total unknown (d rest : list (string * value)) :
  (forall field, In field unknown -> In field (dict_keys d)) ->
  exists r, build_rest unknown d rest = Ok r.
Proof.
  revert rest. induction unknown as [| field unknown IH]; intros rest H; simpl.
  - eauto.
  - assert (Hin : In field (dict_keys d)) by (apply H; left; reflexivity).
    apply dict_get_in_keys in Hin. destruct Hin as [v Hv].
    unfold dict_item. rewrite Hv. simpl. apply IH.
    intros f Hf. apply H. right. exact Hf.
Qed.

Lemma unknown_fields_in known (d : list (string * value)) field :
  In field (unknown_fields known d) <->
  In field (dict_keys d) /\ ~ In field known.
Proof.
  unfold unknown_fields. rewrite filter_In, negb_true_iff, str_in_false. tauto.
Qed.

Lemma Forall_forallb_total {A : Type} (P : A -> Prop) (ok : A -> bool) (Q : A -> Prop)
    (xs : list A) :
  (forall x, P x -> ok x = true -> Q x) ->
  Forall P xs -> forallb ok xs = true -> Forall Q xs.
Proof.
  intros HPQ HP Hok. rewrite forallb_forall in Hok. rewrite Forall_forall in *.
  intros x Hx. apply HPQ; auto.
Qed.

Lemma check_total t :
  bounds_ok t = true -> forall v, exists b, check t v = Ok b.
Proof.
  induction t as [alts IH | | alts IH | c l IH | | | | v r | c IH | | v r |
                  | known rest req opt IHrest IHreq IHopt | cs tl IHcs IHtl | v l]
    using tree_induction; simpl; intros Hb x; eauto;
    try (destruct x; eauto; fail).
  - (* all *)
    apply all_checks_total.
    eapply Forall_forallb_total; [| exact IH | exact Hb]. simpl. auto.
  - (* any *)
    apply any_checks_total.
    eapply Forall_forallb_total; [| exact IH | exact Hb]. simpl. auto.
  - (* arr *)
    apply andb_prop in Hb. destruct Hb as [Hc Hl].
    destruct x; eauto.
    destruct (outside_total l (len_of items) Hl) as [out ->]. simpl.
    destruct out; [eauto |].
    apply all_checks_total. apply Forall_forall. intros item _. auto.
  - (* int *)
    destruct (as_num x) as [n |]; [| eauto].
    destruct (mod1_nonzero n); [eauto |].
    destruct (outside_total r n Hb) as [out ->]. simpl.
    destruct out; [eauto |]. destruct (differs_num v n); eauto.
  - (* map *)
    destruct x; eauto.
    apply all_checks_total. apply Forall_forall. intros item _. auto.
  - (* num *)
    destruct (as_num x) as [n |]; [| eauto].
    destruct (outside_total r n Hb) as [out ->]. simpl.
    destruct out; [eauto |]. destruct (differs_num v n); eauto.
  - (* rec *)
    apply andb_prop in Hb. destruct Hb as [Hb Hopt].
    apply andb_prop in Hb. destruct Hb as [Hrest Hreq].
    destruct x; eauto.
    assert (Req : exists b,
      all_checks (fun fs : string * tree =>
        match dict_get entries (fst fs) with
        | None => Ok false
        | Some v => check (snd fs) v
        end) req = Ok b).
    { apply all_checks_total.
      eapply Forall_forallb_total; [| exact IHreq | exact Hreq]. simpl.
      intros fs IH Hok. destruct (dict_get entries (fst fs)); eauto. }
    assert (Opt : exists b,
      all_checks (fun fs : string * tree =>
        match dict_get entries (fst fs) with
        | None => Ok true
        | Some v => check (snd fs) v
        end) opt = Ok b).
    { apply all_checks_total.
      eapply Forall_forallb_total; [| exact IHopt | exact Hopt]. simpl.
      intros fs IH Hok. destruct (dict_get entries (fst fs)); eauto. }
    destruct Req as [breq Req]. destruct Opt as [bopt Opt].
    destruct (unknown_fields known entries) as [| u us] eqn:U.
    + rewrite Req. simpl. destruct breq; simpl; [| eauto].
      rewrite Opt. simpl. destruct bopt; simpl; eauto.
    + destruct rest as [rs |]; [| eauto].
      rewrite Req. cbn [bind negb]. destruct breq; cbn [bind negb]; [| eauto].
      rewrite Opt. cbn [bind negb]. destruct bopt; cbn [bind negb]; [| eauto].
      destruct (build_rest_total (u :: us) entries []) as [r ->].
      { intros f Hf. rewrite <- U in Hf. apply unknown_fields_in in Hf. tauto. }
      simpl. apply IHrest. exact Hrest.
  - (* seq *)
    apply andb_prop in Hb. destruct Hb as [Hcs Htl].
    destruct x; eauto.
    destruct (Nat.ltb (List.length items) (List.length cs)) eqn:Hlen; [eauto |].
    apply Nat.ltb_ge in Hlen.
    destruct (each_checks_total (fun schema item => check schema item) cs items Hlen)
      as [b ->].
    { eapply Forall_forallb_total; [| exact IHcs | exact Hcs]. simpl. auto. }
    simpl. destruct b; simpl; [| eauto].
    destruct (Nat.ltb (List.length cs) (List.length items)); [| eauto].
    destruct tl as [ts |]; [| eauto]. apply IHtl. exact Htl.
  - (* str *)
    destruct x; eauto.
    destruct (differs_str v s); [eauto |].
    destruct (outside_total l (NInt (Z.of_nat (String.length s))) Hb) as [out ->].
    simpl. destruct out; eauto.
Qed.

(** ** Numbers *)

Lemma mod1_zero_integral n : mod1_nonzero n = false <-> integral n.
Proof.
  destruct n as [z | [| neg | q]]; simpl; try (split; [discriminate | tauto]).
  - tauto.
  - rewrite negb_false_iff, Z.eqb_eq. unfold Qeq. simpl. split.
    + intros H. exists (Qnum q / Zpos (Qden q)).
      rewrite Z.mul_1_r.
      pose proof (Z.div_mod (Qnum q) (Zpos (Qden q))) as D.
      rewrite H, Z.add_0_r, Z.mul_comm in D. apply D. discriminate.
    + intros [z Hz]. rewrite Z.mul_1_r in Hz. rewrite Hz.
      apply Z.mod_mul. discriminate.
Qed.

Lemma num_eq_int a b : num_eq (NInt a) (NInt b) = Z.eqb a b.
Proof.
  unfold num_eq. simpl. destruct (Z.compare_spec a b) as [E | L | L].
  - symmetry. apply Z.eqb_eq. exact E.
  - symmetry. apply Z.eqb_neq. lia.
  - symmetry. apply Z.eqb_neq. lia.
Qed.

Lemma num_lt_int a b : num_lt (NInt a) (NInt b) = Z.ltb a b.
Proof.
  unfold num_lt. simpl. unfold Z.ltb. destruct (a ?= b); reflexivity.
Qed.

Lemma num_le_int a b : num_le (NInt a) (NInt b) = Z.leb a b.
Proof.
  unfold num_le. simpl. unfold Z.leb. destruct (a ?= b); reflexivity.
Qed.

Lemma num_gt_int a b : num_gt (NInt a) (NInt b) = Z.gtb a b.
Proof.
  unfold num_gt. simpl. unfold Z.gtb. destruct (a ?= b); reflexivity.
Qed.

Lemma num_ge_int a b : num_ge (NInt a) (NInt b) = Z.geb a b.
Proof.
  unfold num_ge. simpl. unfold Z.geb. destruct (a ?= b); reflexivity.
Qed.

(** ** The range predicate *)

Lemma copy_range_get entries opt range r :
  copy_range entries opt range = Ok r ->
  forall k, dict_get r k =
            if str_in k entries then dict_get opt k else dict_get range k.
Proof.
  revert range. induction entries as [| entry entries IH]; intros range H k;
    cbn [copy_range] in H.
  - injection H as <-. reflexivity.
  - destruct (str_in entry range_keys); cbn [negb] in H; [| discriminate].
    unfold dict_item in H. destruct (dict_get opt entry) as [v |] eqn:E;
      cbn [bind] in H; [| discriminate].
    rewrite (IH _ H k), dict_get_set.
    unfold str_in. cbn [existsb]. fold (str_in k entries).
    destruct (String.eqb k entry) eqn:K; cbn [orb].
    + apply String.eqb_eq in K. subst k.
      destruct (str_in entry entries); congruence.
    + reflexivity.
Qed.

Lemma make_range_check_get d r :
  make_range_check (VDict d) = Ok r -> forall k, dict_get r k = dict_get d k.
Proof.
  simpl. intros H k. rewrite (copy_range_get _ _ _ _ H k).
  destruct (str_in k (dict_keys d)) eqn:E; [reflexivity |].
  simpl. symmetry. apply dict_get_none. apply str_in_false. exact E.
Qed.

Lemma copy_range_keys entries opt range r :
  copy_range entries opt range = Ok r -> keys_within entries range_keys = true.
Proof.
  revert range. induction entries as [| entry entries IH]; intros range H;
    cbn [copy_range] in H.
  - reflexivity.
  - unfold keys_within. cbn [forallb]. fold (keys_within entries range_keys).
    destruct (str_in entry range_keys); cbn [negb andb] in *; [| discriminate].
    unfold dict_item in H. destruct (dict_get opt entry); cbn [bind] in H; [| discriminate].
    eapply IH. exact H.
Qed.

Lemma bound_hit_spec r k op n :
  match dict_get r k with None => true | Some b => bound_ok b end = true ->
  exists hit, bound_hit r k op n = Ok hit /\
              (hit = true <-> exists m, bound_at r k m /\ op n m = true).
Proof.
  unfold bound_hit, bound_at. destruct (dict_get r k) as [b |].
  - destruct b; simpl; try discriminate; intros _.
    + exists false. split; [reflexivity |]. split; [discriminate |].
      intros [m [[b [E [N _]]] _]]. injection E as <-. congruence.
    + eexists. split; [reflexivity |]. split.
      * intros H. eexists. split; [| exact H].
        eexists. split; [reflexivity |]. split; [discriminate | reflexivity].
      * intros [m [[b' [E [_ O]]] H]]. injection E as <-. simpl in O.
        injection O as <-. exact H.
    + eexists. split; [reflexivity |]. split.
      * intros H. eexists. split; [| exact H].
        eexists. split; [reflexivity |]. split; [discriminate | reflexivity].
      * intros [m [[b' [E [_ O]]] H]]. injection E as <-. simpl in O.
        injection O as <-. exact H.
    + eexists. split; [reflexivity |]. split.
      * intros H. eexists. split; [| exact H].
        eexists. split; [reflexivity |]. split; [discriminate | reflexivity].
      * intros [m [[b' [E [_ O]]] H]]. injection E as <-. simpl in O.
        injection O as <-. exact H.
  - intros _. exists false. split; [reflexivity |]. split; [discriminate |].
    intros [m [[b [E _]] _]]. discriminate.
Qed.

Lemma check_range_spec r n :
  range_ok r = true ->
  exists b, check_range r n = Ok b /\ (b = false <-> out_of_range r n).
Proof.
  unfold range_ok, range_keys. simpl. intros H.
  repeat (apply andb_prop in H; destruct H as [?H H]).
  destruct (bound_hit_spec r "min" num_lt n H0) as [b1 [E1 S1]].
  destruct (bound_hit_spec r "max" num_gt n H1) as [b4 [E4 S4]].
  destruct (bound_hit_spec r "min-ex" num_le n H2) as [b2 [E2 S2]].
  destruct (bound_hit_spec r "max-ex" num_ge n H3) as [b3 [E3 S3]].
  unfold check_range, out_of_range.
  rewrite E1. simpl. destruct b1.
  { exists false. split; [reflexivity |]. split; [| reflexivity].
    intros _. left. apply S1. reflexivity. }
  rewrite E2. simpl. destruct b2.
  { exists false. split; [reflexivity |]. split; [| reflexivity].
    intros _. right. left. apply S2. reflexivity. }
  rewrite E3. simpl. destruct b3.
  { exists false. split; [reflexivity |]. split; [| reflexivity].
    intros _. right. right. left. apply S3. reflexivity. }
  rewrite E4. simpl. destruct b4.
  { exists false. split; [reflexivity |]. split; [| reflexivity].
    intros _. right. right. right. apply S4. reflexivity. }
  exists true. split; [reflexivity |]. split; [discriminate |].
  intros [O | [O | [O | O]]].
  - apply S1 in O. discriminate.
  - apply S2 in O. discriminate.
  - apply S3 in O. discriminate.
  - apply S4 in O. discriminate.
Qed.

(** ** A larger budget changes no result *)

Lemma extends_refl {A : Type} (m : comp A) : extends m m.
Proof. intros r H. exact H. Qed.

Lemma cbind_extends {A B : Type} (m m' : comp A) (k k' : A -> comp B) :
  extends m m' -> (forall a, extends (k a) (k' a)) ->
  extends (cbind m k) (cbind m' k').
Proof.
  intros Hm Hk r H. destruct m as [[a | e] |]; simpl in H; try discriminate.
  - rewrite (Hm _ eq_refl). simpl. apply Hk. exact H.
  - rewrite (Hm _ eq_refl). simpl. exact H.
Qed.

Ltac extends_step :=
  first
    [ apply extends_refl
    | apply cbind_extends; [| intros ?]
    | match goal with
      | |- extends (if ?c then _ else _) _ => destruct c
      | |- extends (match ?x with _ => _ end) _ => destruct x
      end ].

Section Monotone.
Variables mk mk' : value -> comp tree.
Hypothesis mk_extends : forall d, extends (mk d) (mk' d).

Lemma make_each_extends xs : extends (make_each mk xs) (make_each mk' xs).
Proof.
  induction xs as [| x xs IH]; cbn [make_each]; [apply extends_refl |].
  apply cbind_extends; [apply mk_extends | intros t].
  apply cbind_extends; [exact IH | intros ts]. apply extends_refl.
Qed.

Lemma init_fields_extends names defs known fields :
  extends (init_fields mk names defs known fields)
          (init_fields mk' names defs known fields).
Proof.
  revert known fields. induction names as [| field names IH]; intros known fields;
    cbn [init_fields]; [apply extends_refl |].
  destruct (str_in field known); [apply extends_refl |].
  apply cbind_extends; [apply extends_refl | intros def].
  apply cbind_extends; [apply mk_extends | intros t]. apply IH.
Qed.

Lemma construct_extends t schema :
  extends (construct mk t schema) (construct mk' t schema).
Proof.
  destruct t; cbn [construct];
    unfold init_plain, init_all, init_any, init_arr, init_int, init_map, init_num,
      init_rec, init_seq, init_str, init_which;
    repeat first
      [ apply mk_extends
      | apply make_each_extends
      | apply init_fields_extends
      | extends_step ].
Qed.
End Monotone.

Lemma make_schema_step fuel F def :
  extends (make_schema fuel F def) (make_schema (S fuel) F def).
Proof.
  revert def. induction fuel as [| fuel IH]; intros def; [intros r H; discriminate |].
  remember (S fuel) as n eqn:En. cbn [make_schema]. rewrite En at 1. cbn [make_schema].
  set (schema := match def with
                 | VStr s => VDict [("type", VStr s)]
                 | _ => def
                 end).
  destruct schema; try apply extends_refl.
  apply cbind_extends; [apply extends_refl | intros type_name].
  apply cbind_extends; [apply extends_refl | intros u].
  destruct (dict_get (type_registry F) u) as [[t | aliased] |].
  - apply construct_extends. subst n. exact IH.
  - destruct (negb (keys_within (dict_keys entries) ["type"])); [apply extends_refl |].
    subst n. apply IH.
  - apply extends_refl.
Qed.

Lemma make_schema_more_fuel fuel fuel' F def r :
  (fuel <= fuel')%nat -> make_schema fuel F def = Some r ->
  make_schema fuel' F def = Some r.
Proof.
  induction 1 as [| fuel' _ IH]; intros H; [exact H |].
  apply make_schema_step. apply IH. exact H.
Qed.

Lemma compiles_deterministic F def r1 r2 :
  compiles F def r1 -> compiles F def r2 -> r1 = r2.
Proof.
  intros [n1 H1] [n2 H2].
  apply (make_schema_more_fuel n1 (Nat.max n1 n2)) in H1; [| apply Nat.le_max_l].
  apply (make_schema_more_fuel n2 (Nat.max n1 n2)) in H2; [| apply Nat.le_max_r].
  congruence.
Qed.

(** * The claims *)

(** ** Totality of [check] *)

(** C1, as stated, fails: the definition [{"type": "//int", "range":
    {"min": "a"}}] compiles, and checking the integer 5 against the compiled
    tree raises a [TypeError] ([5 < "a"]) instead of returning a boolean. *)
Lemma check_raises_on_text_bound :
  ~ (forall fuel F d t v,
        make_schema fuel F d = Some (Ok t) -> exists b, check t v = Ok b).
Proof.
  intros H.
  destruct (H 2%nat core_factory int_min_text
              (IntType None (Some [("min", VStr "a")])) (VInt 5) eq_refl) as [b Hb].
  discriminate Hb.
Qed.

(** C1, amended: for every successfully compiled validator tree whose range
    bounds are each a number or null, and for every JSON-like input value,
    [check] returns a boolean and never raises, whatever the shape of the
    value. *)
Theorem check_never_raises fuel F d t v :
  make_schema fuel F d = Some (Ok t) ->
  bounds_ok t = true ->
  exists b, check t v = Ok b.
Proof.
  intros _ Hb. apply check_total. exact Hb.
Qed.

Lemma check_never_raises_witness :
  make_schema 3 core_factory arr_of_small_ints = Some (Ok arr_of_small_ints_tree)
  /\ bounds_ok arr_of_small_ints_tree = true
  /\ exists b, check arr_of_small_ints_tree
                 (VList [VInt 2; VStr "x"; VDict [("k", VNone)]]) = Ok b.
Proof.
  split; [reflexivity |]. split; [reflexivity |].
  apply (check_never_raises 3 core_factory arr_of_small_ints); reflexivity.
Defined.

(** ** Text is never a sequence *)

(** C10: on a string, the check of every arr validator and of every seq
    validator returns false. *)
Theorem text_is_not_a_sequence (s : string) :
  (forall content_schema length, check (ArrType content_schema length) (VStr s) = Ok false)
  /\ (forall content_schema tail_schema,
        check (SeqType content_schema tail_schema) (VStr s) = Ok false).
Proof.
  split; reflexivity.
Qed.

(** ** [SeqType.check] *)


(** ** What [RecType.__init__] builds *)

(** Takes a successful computation apart: a [raise_if] did not raise, each
    bound computation succeeded. *)
Ltac invert_comp H :=
  repeat first
    [ discriminate H
    | apply cbind_ok in H;
      let a := fresh "a" in let Ha := fresh "Ha" in destruct H as [a [Ha H]]
    | match type of H with
      | (if ?c then _ else _) = Some (Ok _) => destruct c eqn:?
      | match ?x with _ => _ end = Some (Ok _) => destruct x eqn:?
      end ].

Section RecInit.
Variable mk : value -> comp tree.

Lemma init_fields_known names defs known0 fields known' fields' :
  init_fields mk names defs (known0 ++ dict_keys fields) fields
    = Some (Ok (known', fields')) ->
  known' = (known0 ++ dict_keys fields')%list.
Proof.
  revert fields. induction names as [| field names IH]; intros fields H;
    cbn [init_fields] in H.
  - injection H as <- <-. reflexivity.
  - destruct (str_in field (known0 ++ dict_keys fields)) eqn:K; [discriminate H |].
    invert_comp H.
    apply str_in_false in K.
    assert (Hfresh : ~ In field (dict_keys fields)).
    { intros Hin. apply K. apply in_or_app. right. exact Hin. }
    apply (IH (dict_set fields field a0)).
    rewrite dict_set_fresh in * by exact Hfresh.
    unfold dict_keys in *. rewrite map_app, app_assoc. exact H.
Qed.

Lemma init_which_known schema which known0 known' fields' :
  init_which mk schema which known0 = Some (Ok (known', fields')) ->
  known' = (known0 ++ dict_keys fields')%list.
Proof.
  unfold init_which. intros H. invert_comp H.
  eapply (init_fields_known a _ known0 []). simpl. rewrite app_nil_r. exact H.
Qed.

End RecInit.


(** ** [RecType.check] *)









(** ** Compiling a malformed definition *)

Lemma make_schema_not_mapping fuel F def :
  (forall s, def <> VStr s) -> (forall d, def <> VDict d) ->
  make_schema (S fuel) F def
    = Some (Err (RxError "invalid schema argument to make_schema")).
Proof.
  intros Hs Hd. destruct def; try reflexivity.
  - exfalso. apply (Hs s). reflexivity.
  - exfalso. apply (Hd entries). reflexivity.
Qed.

Lemma make_schema_no_type fuel F d :
  dict_get d "type" = None ->
  make_schema (S fuel) F (VDict d) = Some (Err (KeyError "type")).
Proof.
  intros H. cbn [make_schema]. unfold dict_item. rewrite H. reflexivity.
Qed.

Lemma make_schema_malformed_fails fuel F def t :
  (forall s, def <> VStr s) ->
  (forall d, def = VDict d -> dict_get d "type" = None) ->
  make_schema fuel F def <> Some (Ok t).
Proof.
  intros Hs Hd. destruct fuel as [| fuel]; [discriminate |].
  destruct def; try discriminate.
  - exfalso. apply (Hs s). reflexivity.
  - rewrite make_schema_no_type by (apply Hd; reflexivity). discriminate.
Qed.

(** C2, at the failing input: the mapping [{"contents": "//int"}] has no
    "type" key; [make_schema] returns no tree, but what it raises is the
    [KeyError] of the lookup [schema\["type"\]], which is not the compile
    error [RxError] that it raises for a definition that is not a mapping. *)
Theorem make_schema_missing_type_key_error :
  make_schema 1 core_factory contents_only = Some (Err (KeyError "type"))
  /\ is_compile_error (KeyError "type") = false
  /\ make_schema 1 core_factory (VInt 3)
       = Some (Err (RxError "invalid schema argument to make_schema")).
Proof.
  repeat split; reflexivity.
Qed.

(** ** Learned aliases *)

Lemma keys_within_type (d : list (string * value)) :
  keys_within (dict_keys d) ["type"] = false <->
  exists k, In k (dict_keys d) /\ k <> "type".
Proof.
  unfold keys_within. split.
  - intros H. destruct (forallb_forall (fun k => str_in k ["type"]) (dict_keys d))
      as [_ Hall].
    destruct (existsb (fun k => negb (str_in k ["type"])) (dict_keys d)) eqn:E.
    + apply existsb_exists in E. destruct E as [k [Hin Hk]]. exists k.
      split; [exact Hin |]. intros ->. discriminate Hk.
    + rewrite Hall in H; [discriminate |]. intros k Hin.
      destruct (str_in k ["type"]) eqn:K; [reflexivity |].
      assert (Hex : existsb (fun k => negb (str_in k ["type"])) (dict_keys d) = true).
      { apply existsb_exists. exists k. rewrite K. auto. }
      congruence.
  - intros [k [Hin Hk]].
    destruct (forallb (fun k => str_in k ["type"]) (dict_keys d)) eqn:E; [| reflexivity].
    rewrite forallb_forall in E. specialize (E k Hin).
    apply str_in_In in E. simpl in E. destruct E as [E | []]. congruence.
Qed.

(** C7: when the type of a definition resolves to the URI of a learned
    alias, compiling the definition fails with the compile error if the
    definition has any key other than "type"; otherwise [make_schema]
    compiles the aliased definition and returns exactly what that
    compilation returns, with no node around it. *)
Theorem alias_compiles_to_aliased F uri aliased (d : list (string * value))
    (type_name : value) :
  dict_get (type_registry F) uri = Some (Alias aliased) ->
  dict_get d "type" = Some type_name ->
  expand_uri F type_name = Ok uri ->
  ((exists k, In k (dict_keys d) /\ k <> "type") ->
   forall fuel,
     make_schema (S fuel) F (VDict d)
       = Some (Err (RxError "composed type does not take check arguments")))
  /\ (~ (exists k, In k (dict_keys d) /\ k <> "type") ->
      (forall fuel, make_schema (S fuel) F (VDict d) = make_schema fuel F aliased)
      /\ (forall r, compiles F aliased r -> compiles F (VDict d) r))
  /\ (forall fuel, make_schema (S fuel) F type_name = make_schema fuel F aliased)
  /\ (learn_type 1 learned_uri (VStr "//str") core_factory
        = Some (Ok tt, factory_with_alias)
      /\ dict_get (type_registry factory_with_alias) learned_uri
           = Some (Alias (VStr "//str"))
      /\ make_schema 2 factory_with_alias
           (VDict [("type", VStr learned_uri); ("value", VStr "z")])
         = Some (Err (RxError "composed type does not take check arguments"))
      /\ make_schema 2 factory_with_alias (VDict [("type", VStr learned_uri)])
         = Some (Ok (StrType None None))).
Proof.
  intros Hreg Htype Huri.
  assert (Hstep : forall fuel,
    make_schema (S fuel) F (VDict d) =
    if negb (keys_within (dict_keys d) ["type"])
    then Some (Err (RxError "composed type does not take check arguments"))
    else make_schema fuel F aliased).
  { intros fuel. cbn [make_schema]. unfold dict_item. rewrite Htype.
    cbn [lift cbind]. rewrite Huri, Hreg. reflexivity. }
  split; [| split; [| split]].
  - intros Hextra fuel. apply keys_within_type in Hextra.
    rewrite Hstep, Hextra. reflexivity.
  - intros Honly.
    assert (Hin : keys_within (dict_keys d) ["type"] = true).
    { destruct (keys_within (dict_keys d) ["type"]) eqn:E; [reflexivity |].
      apply keys_within_type in E. contradiction. }
    split.
    + intros fuel. rewrite Hstep, Hin. reflexivity.
    + intros r [fuel Hr]. exists (S fuel). rewrite Hstep, Hin. exact Hr.
  - intros fuel. destruct type_name; try discriminate Huri.
    cbn [make_schema]. unfold dict_item. cbn [dict_get].
    rewrite String.eqb_refl. cbn [lift cbind]. rewrite Huri, Hreg. reflexivity.
  - repeat split; reflexivity.
Qed.

Lemma alias_compiles_to_aliased_witness :
  dict_get (type_registry factory_with_alias) learned_uri = Some (Alias (VStr "//str"))
  /\ dict_get [("type", VStr learned_uri)] "type" = Some (VStr learned_uri)
  /\ expand_uri factory_with_alias (VStr learned_uri) = Ok learned_uri
  /\ (forall fuel,
        make_schema (S fuel) factory_with_alias (VStr learned_uri)
          = make_schema fuel factory_with_alias (VStr "//str")).
Proof.
  split; [reflexivity |]. split; [reflexivity |]. split; [reflexivity |].
  apply (alias_compiles_to_aliased factory_with_alias learned_uri (VStr "//str")
           [("type", VStr learned_uri)] (VStr learned_uri));
    reflexivity.
Defined.

(** ** The prefix registry *)

(** C8, as stated, fails: after [add_prefix] of "p" with an empty base the name "p" is in
    the prefix registry, yet [add_prefix("p", "base2")] succeeds and
    replaces its base. *)
Lemma add_prefix_replaces_empty_base :
  ~ (forall name base F,
        dict_has (prefix_registry F) name = true ->
        exists e, fst (add_prefix name base F) = Err e).
Proof.
  intros H.
  destruct (H "p" "base2" factory_with_empty_prefix eq_refl) as [e He].
  discriminate He.
Qed.

(** C8, amended: [add_prefix(name, base)] fails with an error, and leaves
    the factory as it was, whenever [name] is registered with a non-empty
    base (as are the two builtin aliases '' and '.meta' from construction,
    and any name added before with a non-empty base); when [name] is absent
    from the registry it records the mapping and changes no other name.  A
    name bound to a non-empty base keeps that base. *)
Theorem add_prefix_unique (name base : string) (F : Factory) :
  (forall old, dict_get (prefix_registry F) name = Some old -> old <> EmptyString ->
     add_prefix name base F
       = (Err (RxError ("the prefix '" ++ name ++ "' is already registered")), F))
  /\ (dict_get (prefix_registry F) name = None ->
      fst (add_prefix name base F) = Ok tt
      /\ forall k, dict_get (prefix_registry (snd (add_prefix name base F))) k
                   = if String.eqb k name then Some base
                     else dict_get (prefix_registry F) k)
  /\ (forall k old, dict_get (prefix_registry F) k = Some old -> old <> EmptyString ->
        dict_get (prefix_registry (snd (add_prefix name base F))) k = Some old)
  /\ (forall core, exists e1 e2,
        fst (add_prefix EmptyString base (snd (new_factory core))) = Err e1
        /\ fst (add_prefix ".meta" base (snd (new_factory core))) = Err e2).
Proof.
  split; [| split; [| split]].
  - intros old Hget Hold. unfold add_prefix. rewrite Hget.
    destruct old; [congruence | reflexivity].
  - intros Hget. unfold add_prefix. rewrite Hget. simpl.
    split; [reflexivity |]. intros k. apply dict_get_set.
  - intros k old Hget Hold. unfold add_prefix.
    destruct (dict_get (prefix_registry F) name) as [b |] eqn:E.
    + destruct b as [| c b]; simpl.
      * rewrite dict_get_set. destruct (String.eqb k name) eqn:K; [| exact Hget].
        apply String.eqb_eq in K. subst k. congruence.
      * exact Hget.
    + simpl. rewrite dict_get_set. destruct (String.eqb k name) eqn:K; [| exact Hget].
      apply String.eqb_eq in K. subst k. congruence.
  - intros core. destruct core; do 2 eexists; split; reflexivity.
Qed.

Lemma add_prefix_unique_witness :
  dict_get (prefix_registry bare_factory) ".meta"
    = Some "tag:codesimply.com,2008:rx/meta/"
  /\ "tag:codesimply.com,2008:rx/meta/" <> EmptyString
  /\ add_prefix ".meta" "base" bare_factory
     = (Err (RxError "the prefix '.meta' is already registered"), bare_factory).
Proof.
  split; [reflexivity |]. split; [discriminate |].
  destruct (add_prefix_unique ".meta" "base" bare_factory) as [Hfails _].
  apply (Hfails "tag:codesimply.com,2008:rx/meta/"); [reflexivity | discriminate].
Defined.

(** ** The type registry *)

(** C9: when [learn_type(uri, definition)] fails, because the URI is
    registered already (a builtin or an alias) or because the definition
    does not compile, the factory is left as it was: the type registry has
    the entries it had, and the URI is not registered by the call. *)
Theorem learn_type_failure_keeps_registry fuel (uri : string) (def : value)
    (F : Factory) :
  (forall registered, dict_get (type_registry F) uri = Some registered ->
     learn_type fuel uri def F
       = Some (Err (RxError ("tried to learn type for already-registered uri " ++ uri)), F))
  /\ (forall e, dict_get (type_registry F) uri = None ->
        make_schema fuel F def = Some (Err e) ->
        learn_type fuel uri def F = Some (Err e, F))
  /\ (forall e F', learn_type fuel uri def F = Some (Err e, F') ->
        F' = F
        /\ type_registry F' = type_registry F
        /\ dict_get (type_registry F') uri = dict_get (type_registry F) uri
        /\ ((exists registered, dict_get (type_registry F) uri = Some registered)
            \/ make_schema fuel F def = Some (Err e))).
Proof.
  unfold learn_type. split; [| split].
  - intros registered ->. reflexivity.
  - intros e -> ->. reflexivity.
  - intros e F' H.
    destruct (dict_get (type_registry F) uri) as [registered |] eqn:R.
    + injection H as <- <-. repeat split; eauto.
    + destruct (make_schema fuel F def) as [[t | e'] |]; try discriminate H.
      injection H as <- <-. repeat split; auto.
Qed.

Lemma learn_type_failure_keeps_registry_witness :
  learn_type 2 (uri Int) (VStr "//str") core_factory
    = Some (Err (RxError
         "tried to learn type for already-registered uri tag:codesimply.com,2008:rx/core/int"),
            core_factory)
  /\ core_factory = core_factory.
Proof.
  split; [reflexivity |].
  apply (learn_type_failure_keeps_registry 2 (uri Int) (VStr "//str") core_factory)
    with (e := RxError
      "tried to learn type for already-registered uri tag:codesimply.com,2008:rx/core/int").
  reflexivity.
Defined.

(** * Further properties *)

(** ** The checks of the other core types *)

(** X1: an all validator accepts a value exactly when every one of its
    alternatives accepts it; the alternatives of two lists put together are
    accepted exactly when both lists are; and on a tree with usable bounds
    one rejecting alternative makes the whole check return false. *)
Theorem all_check_conjunction (alts alts' : list tree) (v : value) :
  (accepts (AllType alts) v <-> Forall (fun alt => accepts alt v) alts)
  /\ (accepts (AllType (alts ++ alts')) v <->
      accepts (AllType alts) v /\ accepts (AllType alts') v)
  /\ (bounds_ok (AllType alts) = true ->
      (exists alt, In alt alts /\ rejects alt v) -> rejects (AllType alts) v).
Proof.
  assert (Hall : forall l, accepts (AllType l) v <-> Forall (fun alt => accepts alt v) l).
  { intros l. unfold accepts. cbn [check]. apply all_checks_true. }
  split; [apply Hall | split].
  - rewrite !Hall. rewrite Forall_app. tauto.
  - intros Hb [alt [Hin Hrej]].
    destruct (check_total (AllType alts) Hb v) as [[|] E]; [| exact E].
    apply Hall in E. rewrite Forall_forall in E. specialize (E alt Hin).
    unfold accepts, rejects in *. congruence.
Qed.

Lemma all_check_conjunction_witness :
  bounds_ok (AllType [NumType None None; IntType (Some (NInt 5)) None]) = true
  /\ (exists alt, In alt [NumType None None; IntType (Some (NInt 5)) None]
                  /\ rejects alt (VFloat (FFin (11 # 2))))
  /\ rejects (AllType [NumType None None; IntType (Some (NInt 5)) None])
       (VFloat (FFin (11 # 2))).
Proof.
  assert (Hrej : exists alt, In alt [NumType None None; IntType (Some (NInt 5)) None]
                             /\ rejects alt (VFloat (FFin (11 # 2)))).
  { exists (IntType (Some (NInt 5)) None). split; [right; left |]; reflexivity. }
  split; [reflexivity |]. split; [exact Hrej |].
  destruct (all_check_conjunction [NumType None None; IntType (Some (NInt 5)) None] []
              (VFloat (FFin (11 # 2)))) as [_ [_ H]].
  apply H; [reflexivity | exact Hrej].
Defined.

Lemma any_checks_found {A : Type} (f : A -> result bool) (xs : list A) :
  Forall (fun x => exists b, f x = Ok b) xs ->
  Exists (fun x => f x = Ok true) xs -> any_checks f xs = Ok true.
Proof.
  induction 1 as [| x xs [b Hb] _ IH]; intros Hex; [inversion Hex |].
  simpl. rewrite Hb. simpl. destruct b; [reflexivity |].
  apply IH. inversion Hex as [? ? Hx | ? ? Hxs]; [congruence | exact Hxs].
Qed.

Lemma bounds_ok_children (ts : list tree) (v : value) :
  forallb bounds_ok ts = true -> Forall (fun t => exists b, check t v = Ok b) ts.
Proof.
  intros H. rewrite forallb_forall in H. apply Forall_forall.
  intros t Hin. apply check_total. apply H. exact Hin.
Qed.

(** X2: an any validator without alternatives accepts every value; one
    with alternatives accepts only values that one of them accepts, and, on
    a tree with usable bounds, accepts every such value. *)
Theorem any_check_disjunction (alts : list tree) (v : value) :
  accepts (AnyType None) v
  /\ (accepts (AnyType (Some alts)) v -> Exists (fun alt => accepts alt v) alts)
  /\ (bounds_ok (AnyType (Some alts)) = true ->
      Exists (fun alt => accepts alt v) alts -> accepts (AnyType (Some alts)) v)
  /\ rejects (AnyType (Some [])) v.
Proof.
  split; [reflexivity | split; [| split; [| reflexivity]]].
  - unfold accepts. cbn [check]. apply any_checks_true.
  - intros Hb Hex. unfold accepts. cbn [check]. simpl in Hb.
    apply any_checks_found; [apply bounds_ok_children; exact Hb | exact Hex].
Qed.

Lemma any_check_disjunction_witness :
  bounds_ok (AnyType (Some [StrType None None; NilType])) = true
  /\ Exists (fun alt => accepts alt VNone) [StrType None None; NilType]
  /\ accepts (AnyType (Some [StrType None None; NilType])) VNone.
Proof.
  assert (Hex : Exists (fun alt => accepts alt VNone) [StrType None None; NilType]).
  { right. left. reflexivity. }
  split; [reflexivity |]. split; [exact Hex |].
  destruct (any_check_disjunction [StrType None None; NilType] VNone) as [_ [_ [H _]]].
  apply H; [reflexivity | exact Hex].
Defined.

Lemma outside_false range n :
  outside range n = Ok false <-> (forall r, range = Some r -> check_range r n = Ok true).
Proof.
  destruct range as [r |]; simpl.
  - destruct (check_range r n) as [[|] | e] eqn:E; simpl; split; intros H;
      try discriminate; try reflexivity.
    + intros r' Hr. injection Hr as <-. exact E.
    + specialize (H r eq_refl). congruence.
    + specialize (H r eq_refl). congruence.
  - split; [discriminate | reflexivity].
Qed.

(** X4: a map validator returns false on anything that is not a keyed
    mapping; it accepts a mapping exactly when every stored value satisfies
    the values schema, whatever the keys are. *)
Theorem map_check_values (value_schema : tree) (x : value) :
  ((forall d, x <> VDict d) -> rejects (MapType value_schema) x)
  /\ (forall d, x = VDict d ->
        (accepts (MapType value_schema) x <->
         forall k v, In (k, v) d -> accepts value_schema v)).
Proof.
  split.
  - intros Hx. destruct x; try reflexivity. exfalso. apply (Hx entries). reflexivity.
  - intros d ->. unfold accepts at 1. cbn [check]. rewrite all_checks_true.
    unfold dict_values. rewrite Forall_forall. split.
    + intros H k v Hin. apply H. apply in_map_iff. exists (k, v). auto.
    + intros H v Hin. apply in_map_iff in Hin. destruct Hin as [[k v'] [E Hin]].
      simpl in E. subst v'. apply (H k v Hin).
Qed.

Lemma num_accepts_iff expected range x :
  accepts (NumType expected range) x <->
  exists n, as_num x = Some n
            /\ (forall r, range = Some r -> check_range r n = Ok true)
            /\ (forall v, expected = Some v -> num_eq n v = true).
Proof.
  unfold accepts. cbn [check]. destruct (as_num x) as [n |].
  - split.
    + intros H. exists n. split; [reflexivity |]. rewrite <- outside_false.
      destruct (outside range n) as [[|] | e]; cbn [bind] in H; try discriminate.
      split; [reflexivity |]. intros v ->. simpl in H. unfold num_ne in H.
      destruct (num_eq n v); [reflexivity | discriminate].
    + intros [n' [E [Hr Hv]]]. injection E as <-.
      apply outside_false in Hr. rewrite Hr. cbn [bind].
      destruct expected as [v |]; [| reflexivity].
      simpl. unfold num_ne. rewrite (Hv v eq_refl). reflexivity.
  - split; [discriminate | intros [n [E _]]; discriminate].
Qed.

Lemma int_accepts_iff expected range x :
  accepts (IntType expected range) x <->
  accepts (NumType expected range) x /\ exists n, as_num x = Some n /\ integral n.
Proof.
  unfold accepts. cbn [check]. destruct (as_num x) as [n |].
  - destruct (mod1_nonzero n) eqn:M.
    + split; [discriminate |]. intros [_ [n' [E Hi]]]. injection E as <-.
      apply mod1_zero_integral in Hi. congruence.
    + split; [| tauto]. intros H. split; [exact H |].
      exists n. split; [reflexivity |]. apply mod1_zero_integral. exact M.
  - split; [discriminate | intros [H _]; discriminate].
Qed.

Lemma str_accepts_iff expected length x :
  accepts (StrType expected length) x <->
  exists s, x = VStr s
            /\ (forall v, expected = Some v -> s = v)
            /\ (forall r, length = Some r ->
                  check_range r (NInt (Z.of_nat (String.length s))) = Ok true).
Proof.
  unfold accepts. destruct x; cbn [check];
    try (split; [discriminate | intros [s' [E _]]; discriminate]).
  split.
  - intros H. exists s. split; [reflexivity |].
    destruct expected as [v |]; simpl in H.
    + destruct (String.eqb s v) eqn:E; simpl in H; [| discriminate].
      apply String.eqb_eq in E. split; [intros v' Hv; congruence |].
      apply outside_false.
      destruct (outside length _) as [[|] | e]; cbn [bind] in H;
        try discriminate; reflexivity.
    + split; [discriminate |]. apply outside_false.
      destruct (outside length _) as [[|] | e]; cbn [bind] in H;
        try discriminate; reflexivity.
  - intros [s' [E [Hv Hr]]]. injection E as <-.
    apply outside_false in Hr.
    assert (Hsame : differs_str expected s = false).
    { destruct expected as [v |]; [| reflexivity]. simpl.
      rewrite (Hv v eq_refl), String.eqb_refl. reflexivity. }
    rewrite Hsame, Hr. reflexivity.
Qed.

(** X6: a str validator accepts exactly the texts that equal its [value]
    parameter, if it holds one, and whose number of characters satisfies its
    length range, if it holds one; the comparison with [value] comes first,
    so a text that differs from it is rejected even when the length range
    holds a bound that cannot be ordered. *)
Theorem str_check_accepts (expected : option string) (length : option range_dict)
    (x : value) :
  (accepts (StrType expected length) x <->
   exists s, x = VStr s
             /\ (forall v, expected = Some v -> s = v)
             /\ (forall r, length = Some r ->
                   check_range r (NInt (Z.of_nat (String.length s))) = Ok true))
  /\ (forall s v, x = VStr s -> expected = Some v -> s <> v ->
        rejects (StrType expected length) x).
Proof.
  split; [apply str_accepts_iff |].
  intros s v -> -> Hne. unfold rejects. cbn [check]. simpl.
  destruct (String.eqb s v) eqn:E; [| reflexivity].
  apply String.eqb_eq in E. contradiction.
Qed.

(** X7: the scalar validators.  A def validator accepts exactly what a nil
    validator rejects, and both always return; a fail validator rejects
    everything; a one validator accepts every value that a bool, int, num
    or str validator accepts, and no sequence, mapping or null. *)
Theorem scalar_checks (x : value) :
  (accepts DefType x <-> rejects NilType x)
  /\ (accepts NilType x <-> x = VNone)
  /\ (accepts DefType x \/ accepts NilType x)
  /\ rejects FailType x
  /\ (accepts BoolType x <-> exists b, x = VBool b)
  /\ (forall expected range,
        accepts BoolType x \/ accepts (IntType expected range) x
        \/ accepts (NumType expected range) x -> accepts OneType x)
  /\ (forall expected length, accepts (StrType expected length) x -> accepts OneType x)
  /\ (accepts OneType x ->
      x <> VNone /\ (forall l, x <> VList l) /\ (forall d, x <> VDict d)).
Proof.
  unfold accepts, rejects.
  split; [destruct x; cbn [check]; split; congruence |].
  split; [destruct x; cbn [check]; split; congruence |].
  split; [destruct x; cbn [check]; auto |].
  split; [reflexivity |].
  split.
  { destruct x; cbn [check]; split; try discriminate; eauto;
      intros [b' E]; discriminate. }
  split.
  { intros expected range [H | [H | H]]; destruct x; cbn [check as_num] in *;
      try discriminate; reflexivity. }
  split.
  { intros expected length H. destruct x; cbn [check] in *; try discriminate;
      reflexivity. }
  intros H. destruct x; cbn [check] in H; try discriminate;
    repeat split; intros; discriminate.
Qed.

(** ** The registries only grow *)

Lemma grows_refl F : grows F F.
Proof. split; auto. Qed.

Lemma grows_trans F1 F2 F3 : grows F1 F2 -> grows F2 F3 -> grows F1 F3.
Proof.
  intros [P12 T12] [P23 T23]. split.
  - intros name base H Hne. apply P23; [apply P12 |]; assumption.
  - intros u e H. apply T23, T12, H.
Qed.

Lemma add_prefix_grows name base F : grows F (snd (add_prefix name base F)).
Proof.
  unfold add_prefix. destruct (dict_get (prefix_registry F) name) as [old |] eqn:E.
  - destruct old as [| c old]; [| apply grows_refl]. split; [| auto].
    intros k b Hk Hne. simpl. rewrite dict_get_set.
    destruct (String.eqb k name) eqn:K; [| exact Hk].
    apply String.eqb_eq in K. subst k. congruence.
  - split; [| auto]. intros k b Hk Hne. simpl. rewrite dict_get_set.
    destruct (String.eqb k name) eqn:K; [| exact Hk].
    apply String.eqb_eq in K. subst k. congruence.
Qed.

Lemma register_type_grows t F : grows F (snd (register_type t F)).
Proof.
  unfold register_type. destruct (dict_get (type_registry F) (uri t)) eqn:E;
    [apply grows_refl |].
  split; [auto |]. intros u e Hu. simpl. rewrite dict_get_set.
  destruct (String.eqb u (uri t)) eqn:K; [| exact Hu].
  apply String.eqb_eq in K. subst u. congruence.
Qed.

Lemma learn_type_grows fuel u def F r F' :
  learn_type fuel u def F = Some (r, F') -> grows F F'.
Proof.
  unfold learn_type. destruct (dict_get (type_registry F) u) eqn:E.
  - intros H. injection H as _ <-. apply grows_refl.
  - destruct (make_schema fuel F def) as [[t | e] |]; intros H; try discriminate;
      injection H as _ <-; [| apply grows_refl].
    split; [auto |]. intros k e Hk. simpl. rewrite dict_get_set.
    destruct (String.eqb k u) eqn:K; [| exact Hk].
    apply String.eqb_eq in K. subst k. congruence.
Qed.

(** X8: no call of [add_prefix], [register_type] or [learn_type], whether it
    succeeds or raises, removes or changes an entry of the type registry or
    a prefix that has a non-empty base: the registries only grow. *)
Theorem methods_only_add (F : Factory) :
  (forall name base, grows F (snd (add_prefix name base F)))
  /\ (forall t, grows F (snd (register_type t F)))
  /\ (forall fuel u def r F', learn_type fuel u def F = Some (r, F') -> grows F F').
Proof.
  split; [| split].
  - intros name base. apply add_prefix_grows.
  - intros t. apply register_type_grows.
  - intros fuel u def r F'. apply learn_type_grows.
Qed.

(** ** A schema that compiled still compiles after the factory has grown *)

Lemma keeps_ok_refl {A : Type} (m : comp A) : keeps_ok m m.
Proof. intros a H. exact H. Qed.

Lemma cbind_keeps_ok {A B : Type} (m m' : comp A) (k k' : A -> comp B) :
  keeps_ok m m' -> (forall a, keeps_ok (k a) (k' a)) ->
  keeps_ok (cbind m k) (cbind m' k').
Proof.
  intros Hm Hk b H. apply cbind_ok in H. destruct H as [a [Ha H]].
  rewrite (Hm _ Ha). simpl. apply Hk. exact H.
Qed.

Ltac keeps_ok_step :=
  first
    [ apply keeps_ok_refl
    | apply cbind_keeps_ok; [| intros ?]
    | match goal with
      | |- keeps_ok (if ?c then _ else _) _ => destruct c
      | |- keeps_ok (match ?x with _ => _ end) _ => destruct x
      end ].

Section KeepsOk.
Variables mk mk' : value -> comp tree.
Hypothesis mk_keeps_ok : forall d, keeps_ok (mk d) (mk' d).

Lemma make_each_keeps_ok xs : keeps_ok (make_each mk xs) (make_each mk' xs).
Proof.
  induction xs as [| x xs IH]; cbn [make_each]; [apply keeps_ok_refl |].
  apply cbind_keeps_ok; [apply mk_keeps_ok | intros t].
  apply cbind_keeps_ok; [exact IH | intros ts]. apply keeps_ok_refl.
Qed.

Lemma init_fields_keeps_ok names defs known fields :
  keeps_ok (init_fields mk names defs known fields)
           (init_fields mk' names defs known fields).
Proof.
  revert known fields. induction names as [| field names IH]; intros known fields;
    cbn [init_fields]; [apply keeps_ok_refl |].
  destruct (str_in field known); [apply keeps_ok_refl |].
  apply cbind_keeps_ok; [apply keeps_ok_refl | intros def].
  apply cbind_keeps_ok; [apply mk_keeps_ok | intros t]. apply IH.
Qed.

Lemma construct_keeps_ok t schema :
  keeps_ok (construct mk t schema) (construct mk' t schema).
Proof.
  destruct t; cbn [construct];
    unfold init_plain, init_all, init_any, init_arr, init_int, init_map, init_num,
      init_rec, init_seq, init_str, init_which;
    repeat first
      [ apply mk_keeps_ok
      | apply make_each_keeps_ok
      | apply init_fields_keeps_ok
      | keeps_ok_step ].
Qed.
End KeepsOk.

Lemma expand_uri_grows F F' type_name u :
  grows F F' -> expand_uri F type_name = Ok u -> expand_uri F' type_name = Ok u.
Proof.
  intros [Hp _]. unfold expand_uri. destruct type_name; try discriminate.
  destruct (match_absolute s); [auto |].
  destruct (match_prefixed s) as [[prefix local] |]; [| discriminate].
  destruct (dict_get (prefix_registry F) prefix) as [base |] eqn:E; [| discriminate].
  destruct base as [| c base]; [discriminate |].
  rewrite (Hp _ _ E) by discriminate. auto.
Qed.

Lemma make_schema_grows fuel F F' def :
  grows F F' -> keeps_ok (make_schema fuel F def) (make_schema fuel F' def).
Proof.
  intros Hg. revert def. induction fuel as [| fuel IH]; intros def t H;
    [discriminate H |].
  cbn [make_schema] in *.
  set (schema := match def with
                 | VStr s => VDict [("type", VStr s)]
                 | _ => def
                 end) in *.
  destruct schema as [| | | | | | d]; try discriminate H.
  apply cbind_ok in H. destruct H as [type_name [Htype H]].
  apply cbind_ok in H. destruct H as [u [Hu H]].
  rewrite Htype. cbn [cbind].
  injection Hu as Hu. rewrite (expand_uri_grows F F' type_name u Hg Hu). cbn [lift cbind].
  destruct (dict_get (type_registry F) u) as [[k | aliased] |] eqn:E;
    [| | discriminate H]; rewrite (proj2 Hg _ _ E).
  - apply (construct_keeps_ok (make_schema fuel F) (make_schema fuel F') IH).
    exact H.
  - destruct (negb (keys_within (dict_keys d) ["type"])); [discriminate H |].
    apply IH. exact H.
Qed.

(** X9: a definition that compiles to a tree compiles to the same tree on
    every factory reached by further calls of [add_prefix], [register_type]
    and [learn_type]: registering more never invalidates or changes a
    schema that was valid. *)
Theorem compiled_schema_survives_growth fuel F F' def t :
  grows F F' ->
  make_schema fuel F def = Some (Ok t) ->
  make_schema fuel F' def = Some (Ok t).
Proof.
  intros Hg H. apply (make_schema_grows fuel F F' def Hg). exact H.
Qed.

Lemma compiled_schema_survives_growth_witness :
  grows core_factory factory_with_alias
  /\ make_schema 1 core_factory int_five = Some (Ok (IntType (Some (NInt 5)) None))
  /\ make_schema 1 factory_with_alias int_five = Some (Ok (IntType (Some (NInt 5)) None)).
Proof.
  assert (Hg : grows core_factory factory_with_alias).
  { apply (learn_type_grows 1 learned_uri (VStr "//str") core_factory (Ok tt)).
    reflexivity. }
  split; [exact Hg |]. split; [reflexivity |].
  apply (compiled_schema_survives_growth 1 core_factory factory_with_alias int_five);
    [exact Hg | reflexivity].
Defined.

(** ** Learning a type and using it *)

Lemma make_schema_by_name fuel F name u (d : list (string * value)) :
  dict_get d "type" = Some name ->
  expand_uri F name = Ok u ->
  make_schema (S fuel) F (VDict d) =
  match dict_get (type_registry F) u with
  | None => Some (Err (RxError ("unknown type " ++ u)))
  | Some (Alias aliased) =>
      if negb (keys_within (dict_keys d) ["type"])
      then Some (Err (RxError "composed type does not take check arguments"))
      else make_schema fuel F aliased
  | Some (Builtin t) => construct (make_schema fuel F) t d
  end.
Proof.
  intros Htype Hu. cbn [make_schema]. unfold dict_item. rewrite Htype.
  cbn [lift cbind]. rewrite Hu. reflexivity.
Qed.

(** X10: when [learn_type(uri, definition)] succeeds, the definition
    compiled on the factory as it was, the URI is now bound to the
    definition, a schema whose type name expands to the URI compiles to the
    tree of the definition, and learning the same URI again raises the
    compile error and changes nothing. *)
Theorem learn_then_use fuel (u : string) (def : value) (F F' : Factory) :
  learn_type fuel u def F = Some (Ok tt, F') ->
  exists t,
    make_schema fuel F def = Some (Ok t)
    /\ dict_get (type_registry F) u = None
    /\ dict_get (type_registry F') u = Some (Alias def)
    /\ (forall name, expand_uri F' (VStr name) = Ok u ->
          make_schema (S fuel) F' (VStr name) = Some (Ok t)
          /\ make_schema (S fuel) F' (VDict [("type", VStr name)]) = Some (Ok t))
    /\ (forall fuel' def',
          learn_type fuel' u def' F'
            = Some (Err (RxError ("tried to learn type for already-registered uri " ++ u)),
                    F')).
Proof.
  intros H.
  pose proof (learn_type_grows _ _ _ _ _ _ H) as Hg.
  unfold learn_type in H.
  destruct (dict_get (type_registry F) u) eqn:E; [discriminate H |].
  destruct (make_schema fuel F def) as [[t | e] |] eqn:M; try discriminate H.
  injection H as <-. exists t.
  assert (Hu : dict_get (type_registry (set_types F
                 (dict_set (type_registry F) u (Alias def)))) u = Some (Alias def)).
  { simpl. rewrite dict_get_set, String.eqb_refl. reflexivity. }
  split; [reflexivity |]. split; [reflexivity |]. split; [exact Hu |]. split.
  - intros name Hname.
    assert (Hd : make_schema (S fuel) (set_types F (dict_set (type_registry F) u (Alias def)))
                   (VDict [("type", VStr name)]) = Some (Ok t)).
    { rewrite (make_schema_by_name _ _ (VStr name) u) by (reflexivity || exact Hname).
      rewrite Hu. simpl negb. cbv iota.
      apply (make_schema_grows fuel F _ def Hg). exact M. }
    split; exact Hd.
  - intros fuel' def'. unfold learn_type. rewrite Hu. reflexivity.
Qed.

Lemma learn_then_use_witness :
  learn_type 1 learned_uri (VStr "//str") core_factory = Some (Ok tt, factory_with_alias)
  /\ exists t, make_schema 1 core_factory (VStr "//str") = Some (Ok t)
               /\ dict_get (type_registry core_factory) learned_uri = None
               /\ dict_get (type_registry factory_with_alias) learned_uri
                  = Some (Alias (VStr "//str")).
Proof.
  split; [reflexivity |].
  destruct (learn_then_use 1 learned_uri (VStr "//str") core_factory factory_with_alias
              eq_refl) as [t [H1 [H2 [H3 _]]]].
  exists t. auto.
Defined.

(** ** A new factory *)

Lemma core_uri_distinct t t' : uri t = uri t' -> t = t'.
Proof.
  destruct t, t'; intros H; try reflexivity; discriminate H.
Qed.

(** X11: a factory built with [register_core_types] raises nothing and has
    each of the fourteen core types registered under its own URI, so that
    registering a core type again raises [ValueError] and changes nothing; a
    factory built without the option has an empty type registry, and on a
    factory with an empty type registry no definition compiles.  Both have
    the two builtin prefixes. *)
Theorem new_factory_registries (F : Factory) :
  fst (new_factory true) = Ok tt
  /\ fst (new_factory false) = Ok tt
  /\ (forall t, dict_get (type_registry core_factory) (uri t) = Some (Builtin t))
  /\ (forall t t', uri t = uri t' -> t = t')
  /\ (forall t,
        register_type t core_factory
          = (Err (ValueError ("type already registered for " ++ uri t)), core_factory))
  /\ type_registry bare_factory = []
  /\ (type_registry F = [] ->
      forall fuel def t, make_schema fuel F def <> Some (Ok t))
  /\ (forall core,
        prefix_registry (snd (new_factory core))
          = [(EmptyString, "tag:codesimply.com,2008:rx/core/");
             (".meta", "tag:codesimply.com,2008:rx/meta/")]).
Proof.
  split; [reflexivity |]. split; [reflexivity |].
  assert (Hreg : forall t,
            dict_get (type_registry core_factory) (uri t) = Some (Builtin t)).
  { intros t. destruct t; reflexivity. }
  split; [exact Hreg |]. split; [exact core_uri_distinct |]. split.
  { intros t. unfold register_type. rewrite Hreg. reflexivity. }
  split; [reflexivity |]. split.
  - intros Hempty fuel def t H. destruct fuel as [| fuel]; [discriminate H |].
    cbn [make_schema] in H.
    set (schema := match def with
                   | VStr s => VDict [("type", VStr s)]
                   | _ => def
                   end) in H.
    destruct schema as [| | | | | | d]; try discriminate H.
    apply cbind_ok in H. destruct H as [type_name [_ H]].
    apply cbind_ok in H. destruct H as [u [_ H]].
    rewrite Hempty in H. discriminate H.
  - intros core. destruct core; reflexivity.
Qed.

Lemma new_factory_registries_witness :
  type_registry bare_factory = []
  /\ make_schema 3 bare_factory (VStr "//int") <> Some (Ok (IntType None None)).
Proof.
  split; [reflexivity |].
  destruct (new_factory_registries bare_factory) as [_ [_ [_ [_ [_ [_ [H _]]]]]]].
  apply H. reflexivity.
Defined.

(** ** Names and parameters that are not understood *)

(** X12: [expand_uri] on a text either returns a URI or raises the compile
    error; on a type name that is not a text it raises [TypeError], and so
    does [make_schema] on a mapping whose "type" is not a text, whatever the
    registries hold. *)
Theorem type_name_errors (F : Factory) :
  (forall s e, expand_uri F (VStr s) = Err e -> is_compile_error e = true)
  /\ (forall name, (forall s, name <> VStr s) -> expand_uri F name = Err TypeError)
  /\ (forall fuel d name,
        dict_get d "type" = Some name -> (forall s, name <> VStr s) ->
        make_schema (S fuel) F (VDict d) = Some (Err TypeError)).
Proof.
  assert (Hname : forall name, (forall s, name <> VStr s) ->
                               expand_uri F name = Err TypeError).
  { intros name Hs. destruct name; try reflexivity. exfalso. apply (Hs s). reflexivity. }
  split; [| split; [exact Hname |]].
  - intros s e. unfold expand_uri. destruct (match_absolute s); [discriminate |].
    destruct (match_prefixed s) as [[prefix local] |].
    + destruct (dict_get (prefix_registry F) prefix) as [[| c base] |];
        intros H; try discriminate H; injection H as <-; reflexivity.
    + intros H. injection H as <-. reflexivity.
  - intros fuel d name Htype Hs. cbn [make_schema]. unfold dict_item.
    rewrite Htype. cbn [lift cbind]. rewrite (Hname name Hs). reflexivity.
Qed.

Lemma type_name_errors_witness :
  dict_get [("type", VInt 5)] "type" = Some (VInt 5)
  /\ (forall s, VInt 5 <> VStr s)
  /\ make_schema 1 core_factory (VDict [("type", VInt 5)]) = Some (Err TypeError).
Proof.
  split; [reflexivity |]. split; [discriminate |].
  destruct (type_name_errors core_factory) as [_ [_ H]].
  apply (H 0%nat [("type", VInt 5)] (VInt 5)); [reflexivity | discriminate].
Defined.

(** X13: the constructor of every core type first compares the keys of the
    definition with the parameters of the type: when the type name of a
    definition resolves to a core type and the definition has a key that is
    neither "type" nor a parameter of that type, [make_schema] raises the
    compile error "unknown parameter", before it compiles any nested
    definition. *)
Theorem unknown_parameter_rejected fuel F (d : list (string * value))
    (name : value) (u : string) (t : core_type) :
  dict_get d "type" = Some name ->
  expand_uri F name = Ok u ->
  dict_get (type_registry F) u = Some (Builtin t) ->
  keys_within (dict_keys d) ("type" :: parameters t) = false ->
  make_schema (S fuel) F (VDict d) = Some (Err (unknown_parameter (subname t))).
Proof.
  intros Htype Hu Hreg Hkeys.
  rewrite (make_schema_by_name fuel F name u d Htype Hu), Hreg.
  destruct t; cbn [construct parameters] in *;
    unfold init_plain, init_all, init_any, init_arr, init_int, init_map, init_num,
      init_rec, init_seq, init_str;
    rewrite Hkeys; reflexivity.
Qed.

Lemma unknown_parameter_rejected_witness :
  dict_get [("type", VStr "//int"); ("rnage", VDict [])] "type" = Some (VStr "//int")
  /\ expand_uri core_factory (VStr "//int") = Ok (uri Int)
  /\ dict_get (type_registry core_factory) (uri Int) = Some (Builtin Int)
  /\ keys_within (dict_keys [("type", VStr "//int"); ("rnage", VDict [])])
       ("type" :: parameters Int) = false
  /\ make_schema 1 core_factory (VDict [("type", VStr "//int"); ("rnage", VDict [])])
     = Some (Err (RxError "unknown parameter for //int")).
Proof.
  split; [reflexivity |]. split; [reflexivity |]. split; [reflexivity |].
  split; [reflexivity |].
  apply (unknown_parameter_rejected 0 core_factory
           [("type", VStr "//int"); ("rnage", VDict [])] (VStr "//int") (uri Int) Int);
    reflexivity.
Defined.

(** ** Building a range predicate *)

Lemma copy_range_succeeds entries opt range :
  keys_within entries range_keys = true ->
  (forall k, In k entries -> In k (dict_keys opt)) ->
  exists r, copy_range entries opt range = Ok r.
Proof.
  revert range. induction entries as [| entry entries IH]; intros range Hkeys Hin;
    cbn [copy_range]; [eauto |].
  unfold keys_within in Hkeys. cbn [forallb] in Hkeys.
  apply andb_prop in Hkeys. destruct Hkeys as [Hentry Hkeys]. rewrite Hentry.
  cbn [negb]. unfold dict_item.
  destruct (proj1 (dict_get_in_keys opt entry) (Hin entry (or_introl eq_refl)))
    as [v ->].
  cbn [bind]. apply IH; [exact Hkeys |]. intros k Hk. apply Hin. right. exact Hk.
Qed.

Lemma copy_range_illegal entries opt range :
  keys_within entries range_keys = false ->
  (forall k, In k entries -> In k (dict_keys opt)) ->
  copy_range entries opt range = Err (ValueError "illegal argument to make_range_check").
Proof.
  revert range. induction entries as [| entry entries IH]; intros range Hkeys Hin;
    [discriminate Hkeys |].
  cbn [copy_range]. unfold keys_within in Hkeys. cbn [forallb] in Hkeys.
  destruct (str_in entry range_keys); cbn [negb andb] in *; [| reflexivity].
  unfold dict_item.
  destruct (proj1 (dict_get_in_keys opt entry) (Hin entry (or_introl eq_refl)))
    as [v ->].
  cbn [bind]. apply IH; [exact Hkeys |]. intros k Hk. apply Hin. right. exact Hk.
Qed.

(** X14: [make_range_check] accepts a mapping exactly when each of its keys
    is one of min, max, min-ex and max-ex, and the predicate it returns then
    holds the bounds of the mapping, whatever their values; on a mapping
    with any other key it raises [ValueError], and on an argument that is
    not a mapping [AttributeError], neither of which is the compile
    error. *)
Theorem make_range_check_keys (opt : value) :
  (forall d, opt = VDict d -> keys_within (dict_keys d) range_keys = true ->
     exists r, make_range_check opt = Ok r
               /\ forall k, dict_get r k = dict_get d k)
  /\ (forall d, opt = VDict d -> keys_within (dict_keys d) range_keys = false ->
        make_range_check opt = Err (ValueError "illegal argument to make_range_check"))
  /\ ((forall d, opt <> VDict d) -> make_range_check opt = Err AttributeError).
Proof.
  split; [| split].
  - intros d -> Hkeys.
    destruct (copy_range_succeeds (dict_keys d) d [] Hkeys (fun k H => H)) as [r Hr].
    exists r. split; [exact Hr |]. apply make_range_check_get. exact Hr.
  - intros d -> Hkeys. apply copy_range_illegal; auto.
  - intros Hd. destruct opt; try reflexivity. exfalso. apply (Hd entries). reflexivity.
Qed.

Lemma make_range_check_keys_witness :
  keys_within (dict_keys [("min", VInt 1); ("maximum", VInt 5)]) range_keys = false
  /\ make_range_check (VDict [("min", VInt 1); ("maximum", VInt 5)])
     = Err (ValueError "illegal argument to make_range_check").
Proof.
  split; [reflexivity |].
  destruct (make_range_check_keys (VDict [("min", VInt 1); ("maximum", VInt 5)]))
    as [_ [H _]].
  apply (H [("min", VInt 1); ("maximum", VInt 5)]); reflexivity.
Defined.

(** ** Prefixes *)

Lemma span_all p (a b : string) :
  all_chars p a = true ->
  (forall c b', b = String c b' -> p c = false) ->
  span p (a ++ b) = (a, b).
Proof.
  intros Ha Hb. induction a as [| c a IH]; simpl in *.
  - destruct b as [| c b']; [reflexivity |].
    simpl. rewrite (Hb c b' eq_refl). reflexivity.
  - apply andb_prop in Ha. destruct Ha as [Hc Ha]. rewrite Hc, (IH Ha). reflexivity.
Qed.

Lemma append_empty (s : string) : (s ++ EmptyString)%string = s.
Proof.
  induction s as [| c s IH]; simpl; [reflexivity | rewrite IH; reflexivity].
Qed.

Lemma match_prefixed_name prefix local :
  all_chars is_name prefix = true ->
  all_chars is_name local = true ->
  local <> EmptyString ->
  match_prefixed (String "/" (prefix ++ String "/" local)) = Some (prefix, local).
Proof.
  intros Hp Hl Hne. unfold match_prefixed.
  rewrite (span_all is_name prefix (String "/" local) Hp).
  - rewrite <- (append_empty local) at 1.
    rewrite (span_all is_name local EmptyString Hl) by (intros c b' H; discriminate H).
    destruct local as [| c local]; [congruence | reflexivity].
  - intros c b' H. injection H as <- _. reflexivity.
Qed.

(** X15: after [add_prefix(name, base)] has succeeded with a non-empty
    base, the type name [/name/local] expands to [base] followed by
    [local], for every name and non-empty local part written with the
    characters a-z, 0-9, '.', '_' and '-'. *)
Theorem add_prefix_then_expand (F : Factory) (name base local : string) :
  fst (add_prefix name base F) = Ok tt ->
  base <> EmptyString ->
  all_chars is_name name = true ->
  all_chars is_name local = true ->
  local <> EmptyString ->
  expand_uri (snd (add_prefix name base F))
    (VStr (String "/" (name ++ String "/" local)))
  = Ok (base ++ local).
Proof.
  intros Hok Hbase Hname Hlocal Hne.
  assert (Hget : dict_get (prefix_registry (snd (add_prefix name base F))) name
                 = Some base).
  { unfold add_prefix in *.
    destruct (dict_get (prefix_registry F) name) as [[| c old] |]; simpl in *;
      try discriminate Hok; rewrite dict_get_set, String.eqb_refl; reflexivity. }
  unfold expand_uri. cbn [match_absolute span is_word].
  replace (is_word "/") with false by reflexivity. cbv iota.
  rewrite (match_prefixed_name name local Hname Hlocal Hne), Hget.
  destruct base; [congruence | reflexivity].
Qed.

Lemma add_prefix_then_expand_witness :
  fst (add_prefix "geo" "tag:example.com,2024:geo/" bare_factory) = Ok tt
  /\ expand_uri (snd (add_prefix "geo" "tag:example.com,2024:geo/" bare_factory))
       (VStr "/geo/lat-long")
     = Ok "tag:example.com,2024:geo/lat-long".
Proof.
  split; [reflexivity |].
  apply (add_prefix_then_expand bare_factory "geo" "tag:example.com,2024:geo/" "lat-long");
    try reflexivity; discriminate.
Defined.

(** ** Compilation terminates on every factory that the methods build *)

Lemma depth_in_list x l : In x l -> (depth x < depth (VList l))%nat.
Proof.
  cbn [depth]. induction l as [| y l IH]; intros H; [destruct H |].
  cbn [fold_right]. destruct H as [-> | H]; [lia |].
  specialize (IH H). lia.
Qed.

Lemma depth_in_dict (d : list (string * value)) k v :
  In (k, v) d -> (depth v < depth (VDict d))%nat.
Proof.
  cbn [depth]. induction d as [| [k' v'] d IH]; intros H; [destruct H |].
  cbn [fold_right snd]. destruct H as [E | H]; [injection E as _ ->; lia |].
  specialize (IH H). lia.
Qed.

Lemma dict_get_In {V : Type} (d : list (string * V)) k v :
  dict_get d k = Some v -> In (k, v) d.
Proof.
  induction d as [| [k' v'] d IH]; simpl; [discriminate |].
  destruct (String.eqb k k') eqn:E.
  - apply String.eqb_eq in E. subst k'. intros H. injection H as ->. left. reflexivity.
  - intros H. right. apply IH. exact H.
Qed.

Lemma In_dict_set {V : Type} (d : list (string * V)) k v k' v' :
  In (k', v') (dict_set d k v) -> (k', v') = (k, v) \/ In (k', v') d.
Proof.
  induction d as [| [k0 v0] d IH]; simpl.
  - intros [H | []]. left. symmetry. exact H.
  - destruct (String.eqb k k0); simpl.
    + intros [H | H]; [left; symmetry; exact H | right; right; exact H].
    + intros [H | H]; [right; left; exact H |].
      destruct (IH H) as [E | Hin]; [left; exact E | right; right; exact Hin].
Qed.

Lemma dict_item_depth (d : list (string * value)) k v :
  dict_item d k = Ok v -> (depth v < depth (VDict d))%nat.
Proof.
  unfold dict_item. destruct (dict_get d k) as [v' |] eqn:E; [| discriminate].
  intros H. injection H as <-. apply (depth_in_dict d k). apply dict_get_In. exact E.
Qed.

Lemma chars_depth s x : In x (chars s) -> depth x = 0%nat.
Proof.
  induction s as [| c s IH]; simpl; [tauto |].
  intros [<- | H]; [reflexivity | apply IH; exact H].
Qed.

Lemma py_iter_depth v xs x :
  py_iter v = Ok xs -> In x xs -> (depth x <= depth v)%nat.
Proof.
  destruct v; simpl; try discriminate; intros H; injection H as <-; intros Hin.
  - rewrite (chars_depth s x Hin). lia.
  - apply Nat.lt_le_incl. apply depth_in_list. exact Hin.
  - apply in_map_iff in Hin. destruct Hin as [k [<- _]]. simpl. lia.
Qed.

Lemma py_item_depth defs field def :
  py_item defs field = Ok def -> (depth def < depth defs)%nat.
Proof.
  destruct defs; simpl; try discriminate. apply dict_item_depth.
Qed.

Lemma cbind_halts {A B : Type} (m : comp A) (k : A -> comp B) :
  halts m -> (forall a, m = Some (Ok a) -> halts (k a)) -> halts (cbind m k).
Proof.
  unfold halts. intros Hm Hk. destruct m as [[a | e] |]; simpl.
  - apply Hk. reflexivity.
  - discriminate.
  - exfalso. apply Hm. reflexivity.
Qed.

Lemma lift_halts {A : Type} (r : result A) : halts (lift r).
Proof. discriminate. Qed.

Lemma ret_halts {A : Type} (a : A) : halts (ret a).
Proof. discriminate. Qed.

Lemma throw_halts {A : Type} (e : error) : halts (@throw A e).
Proof. discriminate. Qed.

Lemma lift_ok {A : Type} (r : result A) (a : A) : lift r = Some (Ok a) -> r = Ok a.
Proof. intros H. injection H as ->. reflexivity. Qed.

(** One step of a proof that a computation without nested compilation
    ends. *)
Ltac halts_step :=
  first
    [ apply lift_halts | apply ret_halts | apply throw_halts
    | apply cbind_halts; [| intros ? ?]
    | match goal with
      | |- halts (if ?c then _ else _) => destruct c
      | |- halts (match ?x with _ => _ end) => destruct x eqn:?
      end ].

Section Halting.
Variable mk : value -> comp tree.
Variable n : nat.
Hypothesis mk_halts : forall v, (depth v <= n)%nat -> halts (mk v).

Lemma make_each_halts xs :
  (forall x, In x xs -> (depth x <= n)%nat) -> halts (make_each mk xs).
Proof.
  induction xs as [| x xs IH]; intros H; cbn [make_each]; [apply ret_halts |].
  apply cbind_halts; [apply mk_halts, H; left; reflexivity | intros t _].
  apply cbind_halts; [apply IH; intros y Hy; apply H; right; exact Hy | intros ts _].
  apply ret_halts.
Qed.

Lemma make_iter_halts (schema : list (string * value)) k v xs :
  (depth (VDict schema) <= S n)%nat ->
  dict_item schema k = Ok v -> py_iter v = Ok xs -> halts (make_each mk xs).
Proof.
  intros Hd Hv Hxs. apply make_each_halts. intros x Hx.
  pose proof (dict_item_depth schema k v Hv).
  pose proof (py_iter_depth v xs x Hxs Hx). lia.
Qed.

Lemma make_item_halts (schema : list (string * value)) k v :
  (depth (VDict schema) <= S n)%nat -> dict_item schema k = Ok v -> halts (mk v).
Proof.
  intros Hd Hv. apply mk_halts. pose proof (dict_item_depth schema k v Hv). lia.
Qed.

Lemma init_fields_halts names defs known fields :
  (depth defs <= n)%nat -> halts (init_fields mk names defs known fields).
Proof.
  intros Hd. revert known fields.
  induction names as [| field names IH]; intros known fields; cbn [init_fields];
    [apply ret_halts |].
  destruct (str_in field known); [apply throw_halts |].
  apply cbind_halts; [apply lift_halts | intros def Hdef].
  apply lift_ok in Hdef. pose proof (py_item_depth defs field def Hdef).
  apply cbind_halts; [apply mk_halts; lia | intros t _]. apply IH.
Qed.

Lemma init_which_halts (schema : list (string * value)) which known :
  (depth (VDict schema) <= S n)%nat -> halts (init_which mk schema which known).
Proof.
  intros Hd. unfold init_which.
  apply cbind_halts; [apply lift_halts | intros names Hnames].
  destruct (dict_get schema which) as [v |] eqn:E.
  - apply init_fields_halts.
    pose proof (depth_in_dict schema which v (dict_get_In _ _ _ E)). lia.
  - apply lift_ok in Hnames. simpl in Hnames. injection Hnames as <-.
    apply ret_halts.
Qed.

Lemma range_if_given_halts schema k : halts (range_if_given schema k).
Proof. unfold range_if_given. repeat halts_step. Qed.

Lemma range_if_present_halts schema k : halts (range_if_present schema k).
Proof. unfold range_if_present. repeat halts_step. Qed.

Lemma construct_halts t (schema : list (string * value)) :
  (depth (VDict schema) <= S n)%nat -> halts (construct mk t schema).
Proof.
  intros Hd. destruct t; cbn [construct].
  - (* all *)
    unfold init_all.
    destruct (negb (keys_within (dict_keys schema) ["type"; "of"])); [apply throw_halts |].
    destruct (dict_get schema "of") as [alts |] eqn:E; [| apply throw_halts].
    destruct (negb (truthy alts)); [apply throw_halts |].
    apply cbind_halts; [apply lift_halts | intros len _].
    destruct (Nat.eqb len 0); [apply throw_halts |].
    apply cbind_halts; [apply lift_halts | intros xs Hxs].
    apply cbind_halts; [| intros; apply ret_halts].
    apply (make_iter_halts schema "of" alts xs Hd).
    + unfold dict_item. rewrite E. reflexivity.
    + apply lift_ok. exact Hxs.
  - (* any *)
    unfold init_any.
    destruct (negb (keys_within (dict_keys schema) ["type"; "of"])); [apply throw_halts |].
    destruct (dict_get schema "of") as [alts |] eqn:E; [| apply ret_halts].
    assert (Hiter : halts (if negb (truthy alts)
                           then throw (RxError "no alternatives given in //any of")
                           else cbind (lift (py_iter alts))
                                  (fun xs => cbind (make_each mk xs)
                                     (fun ts => ret (AnyType (Some ts)))))).
    { destruct (negb (truthy alts)); [apply throw_halts |].
      apply cbind_halts; [apply lift_halts | intros xs Hxs].
      apply cbind_halts; [| intros; apply ret_halts].
      apply (make_iter_halts schema "of" alts xs Hd).
      - unfold dict_item. rewrite E. reflexivity.
      - apply lift_ok. exact Hxs. }
    destruct alts; try exact Hiter. apply ret_halts.
  - (* arr *)
    unfold init_arr.
    destruct (negb (keys_within (dict_keys schema) ["type"; "contents"; "length"]));
      [apply throw_halts |].
    destruct (negb (given schema "contents")); [apply throw_halts |].
    apply cbind_halts; [apply lift_halts | intros contents Hc].
    apply cbind_halts;
      [apply (make_item_halts schema "contents" contents Hd), lift_ok, Hc | intros c _].
    apply cbind_halts; [apply range_if_given_halts | intros; apply ret_halts].
  - unfold init_plain. repeat halts_step.
  - unfold init_plain. repeat halts_step.
  - unfold init_plain. repeat halts_step.
  - (* int *)
    unfold init_int.
    destruct (negb (keys_within (dict_keys schema) ["type"; "range"; "value"]));
      [apply throw_halts |].
    apply cbind_halts; [repeat halts_step | intros v _].
    apply cbind_halts; [apply range_if_present_halts | intros; apply ret_halts].
  - (* map *)
    unfold init_map.
    destruct (negb (keys_within (dict_keys schema) ["type"; "values"]));
      [apply throw_halts |].
    destruct (negb (given schema "values")); [apply throw_halts |].
    apply cbind_halts; [apply lift_halts | intros values Hv].
    apply cbind_halts;
      [apply (make_item_halts schema "values" values Hd), lift_ok, Hv | intros c _].
    apply ret_halts.
  - unfold init_plain. repeat halts_step.
  - (* num *)
    unfold init_num.
    destruct (negb (keys_within (dict_keys schema) ["type"; "range"; "value"]));
      [apply throw_halts |].
    apply cbind_halts; [repeat halts_step | intros v _].
    apply cbind_halts; [apply range_if_given_halts | intros; apply ret_halts].
  - unfold init_plain. repeat halts_step.
  - (* rec *)
    unfold init_rec.
    destruct (negb (keys_within (dict_keys schema)
                      ["type"; "rest"; "required"; "optional"]));
      [apply throw_halts |].
    apply cbind_halts.
    { destruct (given schema "rest"); [| apply ret_halts].
      apply cbind_halts; [apply lift_halts | intros rest Hr].
      apply cbind_halts;
        [apply (make_item_halts schema "rest" rest Hd), lift_ok, Hr | intros c _].
      apply ret_halts. }
    intros rs _.
    apply cbind_halts; [apply init_which_halts, Hd | intros req _].
    apply cbind_halts; [apply init_which_halts, Hd | intros opt _].
    apply ret_halts.
  - (* seq *)
    unfold init_seq.
    destruct (negb (keys_within (dict_keys schema) ["type"; "contents"; "tail"]));
      [apply throw_halts |].
    destruct (negb (given schema "contents")); [apply throw_halts |].
    apply cbind_halts; [apply lift_halts | intros contents Hc].
    apply cbind_halts; [apply lift_halts | intros xs Hxs].
    apply cbind_halts;
      [apply (make_iter_halts schema "contents" contents xs Hd); apply lift_ok; assumption
      | intros cs _].
    apply cbind_halts; [| intros; apply ret_halts].
    destruct (given schema "tail"); [| apply ret_halts].
    apply cbind_halts; [apply lift_halts | intros tail Ht].
    apply cbind_halts;
      [apply (make_item_halts schema "tail" tail Hd), lift_ok, Ht | intros c _].
    apply ret_halts.
  - (* str *)
    unfold init_str.
    destruct (negb (keys_within (dict_keys schema) ["type"; "value"; "length"]));
      [apply throw_halts |].
    apply cbind_halts; [repeat halts_step | intros v _].
    apply cbind_halts; [apply range_if_present_halts | intros; apply ret_halts].
Qed.
End Halting.

Lemma construct_bare_halts (mk : value -> comp tree) t name :
  halts (construct mk t [("type", name)]).
Proof.
  unfold halts. destruct t; vm_compute; discriminate.
Qed.

Section Termination.
Variable F : Factory.
Variable A : nat.
Hypothesis aliases_at_A :
  forall u aliased, dict_get (type_registry F) u = Some (Alias aliased) ->
    exists t, make_schema A F aliased = Some (Ok t).

Lemma alias_halts fuel u aliased :
  dict_get (type_registry F) u = Some (Alias aliased) ->
  (A <= fuel)%nat -> halts (make_schema fuel F aliased).
Proof.
  intros Hu Hle. destruct (aliases_at_A u aliased Hu) as [t Ht].
  unfold halts. rewrite (make_schema_more_fuel A fuel F aliased _ Hle Ht). discriminate.
Qed.

Lemma make_schema_dict_halts fuel (d : list (string * value)) :
  (A <= fuel)%nat ->
  (forall t, halts (construct (make_schema fuel F) t d)) ->
  halts (make_schema (S fuel) F (VDict d)).
Proof.
  intros Hle Hc. cbn [make_schema].
  apply cbind_halts; [apply lift_halts | intros name _].
  apply cbind_halts; [apply lift_halts | intros u _].
  destruct (dict_get (type_registry F) u) as [[t | aliased] |] eqn:E.
  - apply Hc.
  - destruct (negb (keys_within (dict_keys d) ["type"])); [apply throw_halts |].
    apply (alias_halts fuel u aliased E Hle).
  - apply throw_halts.
Qed.

Lemma make_schema_text_halts fuel s :
  (A <= fuel)%nat -> halts (make_schema (S fuel) F (VStr s)).
Proof.
  intros Hle.
  apply (make_schema_dict_halts fuel [("type", VStr s)] Hle).
  intros t. apply construct_bare_halts.
Qed.

Lemma make_schema_halts n d :
  (depth d <= n)%nat -> halts (make_schema (S (n + A)) F d).
Proof.
  revert d. induction n as [| n IH]; intros d Hd.
  - destruct d; simpl in Hd; try lia; try (cbn [make_schema]; apply throw_halts).
    apply make_schema_text_halts. lia.
  - destruct d; try (cbn [make_schema]; apply throw_halts).
    + apply make_schema_text_halts. lia.
    + apply make_schema_dict_halts; [lia |].
      intros t. apply (construct_halts (make_schema (S n + A) F) n); [| exact Hd].
      intros v Hv. apply IH. exact Hv.
Qed.
End Termination.

Lemma aliases_share_budget F (reg : list (string * entry)) :
  (forall u aliased, In (u, Alias aliased) reg ->
     exists fuel t, make_schema fuel F aliased = Some (Ok t)) ->
  exists A, forall u aliased, In (u, Alias aliased) reg ->
    exists t, make_schema A F aliased = Some (Ok t).
Proof.
  induction reg as [| [u0 e0] reg IH]; intros H.
  - exists 0%nat. intros u aliased [].
  - destruct IH as [A HA]; [intros u aliased Hin; apply (H u aliased); right; exact Hin |].
    destruct e0 as [t0 | a0].
    + exists A. intros u aliased [E | Hin]; [discriminate E | apply (HA u aliased Hin)].
    + destruct (H u0 a0 (or_introl eq_refl)) as [fuel0 [t0 H0]].
      exists (Nat.max A fuel0). intros u aliased [E | Hin].
      * injection E as _ <-. exists t0.
        apply (make_schema_more_fuel fuel0); [apply Nat.le_max_r | exact H0].
      * destruct (HA u aliased Hin) as [t Ht]. exists t.
        apply (make_schema_more_fuel A); [apply Nat.le_max_l | exact Ht].
Qed.

Lemma aliases_compile_grows F F' :
  grows F F' ->
  (forall u aliased, In (u, Alias aliased) (type_registry F') ->
     In (u, Alias aliased) (type_registry F)
     \/ exists fuel t, make_schema fuel F aliased = Some (Ok t)) ->
  aliases_compile F -> aliases_compile F'.
Proof.
  intros Hg Hin Hc u aliased Hu.
  assert (Hold : exists fuel t, make_schema fuel F aliased = Some (Ok t)).
  { destruct (Hin u aliased Hu) as [H | H]; [apply (Hc u aliased H) | exact H]. }
  destruct Hold as [fuel [t Ht]]. exists fuel, t.
  apply (make_schema_grows fuel F F' aliased Hg). exact Ht.
Qed.

Lemma reachable_aliases_compile F : reachable F -> aliases_compile F.
Proof.
  induction 1 as [core | F name base _ IH | F t _ IH | F fuel u def r F' _ IH Hlearn].
  - intros u aliased Hin. exfalso.
    destruct core; simpl in Hin; intuition discriminate.
  - apply (aliases_compile_grows F); [apply add_prefix_grows | | exact IH].
    intros u aliased Hin. left. unfold add_prefix in Hin.
    destruct (dict_get (prefix_registry F) name) as [[| c old] |]; exact Hin.
  - apply (aliases_compile_grows F); [apply register_type_grows | | exact IH].
    intros u aliased Hin. left. unfold register_type in Hin.
    destruct (dict_get (type_registry F) (uri t)); [exact Hin |].
    simpl in Hin. apply In_dict_set in Hin.
    destruct Hin as [E | Hin]; [discriminate E | exact Hin].
  - apply (aliases_compile_grows F); [apply (learn_type_grows _ _ _ _ _ _ Hlearn) | | exact IH].
    intros u' aliased Hin. unfold learn_type in Hlearn.
    destruct (dict_get (type_registry F) u); [injection Hlearn as _ <-; left; exact Hin |].
    destruct (make_schema fuel F def) as [[t | e] |] eqn:M; try discriminate Hlearn;
      injection Hlearn as _ <-; [| left; exact Hin].
    simpl in Hin. apply In_dict_set in Hin.
    destruct Hin as [E | Hin]; [| left; exact Hin].
    injection E as _ <-. right. eauto.
Qed.

(** X16: on every factory built by [Factory], [add_prefix],
    [register_type] and [learn_type], in any order and whether the calls
    succeeded or raised, [make_schema] ends on every definition, with a tree
    or with an exception: a nesting budget exists within which it returns,
    and every larger budget gives the same result; so does [learn_type].  No
    sequence of calls makes a learned type refer to itself. *)
Theorem compilation_terminates (F : Factory) (def : value) :
  reachable F ->
  (exists fuel r,
      make_schema fuel F def = Some r
      /\ forall fuel', (fuel <= fuel')%nat -> make_schema fuel' F def = Some r)
  /\ (forall u, exists fuel r, learn_type fuel u def F = Some r).
Proof.
  intros Hreach.
  pose proof (reachable_aliases_compile F Hreach) as Hc.
  destruct (aliases_share_budget F (type_registry F) Hc) as [A HA].
  assert (Hhalt : halts (make_schema (S (depth def + A)) F def)).
  { apply (make_schema_halts F A); [| apply Nat.le_refl].
    intros u aliased Hu. apply (HA u aliased). apply dict_get_In. exact Hu. }
  unfold halts in Hhalt.
  destruct (make_schema (S (depth def + A)) F def) as [r |] eqn:M; [| congruence].
  split.
  - exists (S (depth def + A)), r. split; [exact M |].
    intros fuel' Hle. apply (make_schema_more_fuel _ _ _ _ _ Hle M).
  - intros u. exists (S (depth def + A)). unfold learn_type.
    destruct (dict_get (type_registry F) u); [eauto |].
    rewrite M. destruct r; eauto.
Qed.

Lemma compilation_terminates_witness :
  reachable factory_with_alias
  /\ exists fuel r, make_schema fuel factory_with_alias
                      (VDict [("type", VStr learned_uri)]) = Some r.
Proof.
  assert (Hreach : reachable factory_with_alias).
  { apply (reach_learn_type core_factory 1 learned_uri (VStr "//str") (Ok tt));
      [apply reach_new | reflexivity]. }
  split; [exact Hreach |].
  destruct (compilation_terminates factory_with_alias
              (VDict [("type", VStr learned_uri)]) Hreach) as [[fuel [r [H _]]] _].
  exists fuel, r. exact H.
Defined.

(** ** What every compiled tree satisfies *)

Lemma keys_within_set {V : Type} (d : list (string * V)) k v allowed :
  keys_within (dict_keys d) allowed = true -> str_in k allowed = true ->
  keys_within (dict_keys (dict_set d k v)) allowed = true.
Proof.
  intros Hd Hk. rewrite dict_keys_set. destruct (str_in k (dict_keys d)); [exact Hd |].
  unfold keys_within in *. rewrite forallb_app, Hd. simpl. rewrite Hk. reflexivity.
Qed.

Lemma copy_range_within entries opt range r :
  keys_within (dict_keys range) range_keys = true ->
  copy_range entries opt range = Ok r ->
  keys_within (dict_keys r) range_keys = true.
Proof.
  revert range. induction entries as [| entry entries IH]; intros range Hr H;
    cbn [copy_range] in H.
  - injection H as <-. exact Hr.
  - destruct (str_in entry range_keys) eqn:E; cbn [negb] in H; [| discriminate H].
    unfold dict_item in H. destruct (dict_get opt entry) as [v |]; cbn [bind] in H;
      [| discriminate H].
    apply (IH _ (keys_within_set range entry v range_keys Hr E) H).
Qed.

Lemma make_range_check_within opt r :
  make_range_check opt = Ok r -> keys_within (dict_keys r) range_keys = true.
Proof.
  destruct opt; simpl; try discriminate. apply copy_range_within. reflexivity.
Qed.

Lemma range_if_given_ok schema k r :
  range_if_given schema k = Some (Ok r) -> range_keys_ok r.
Proof.
  unfold range_if_given. intros H. invert_comp H.
  - injection H as <-. apply make_range_check_within with (opt := a).
    apply lift_ok. exact Ha0.
  - injection H as <-. exact I.
Qed.

Lemma range_if_present_ok schema k r :
  range_if_present schema k = Some (Ok r) -> range_keys_ok r.
Proof.
  unfold range_if_present. intros H. invert_comp H.
  - injection H as <-. apply make_range_check_within with (opt := v).
    apply lift_ok. exact Ha.
  - injection H as <-. exact I.
Qed.

Lemma py_iter_truthy v xs : truthy v = true -> py_iter v = Ok xs -> xs <> [].
Proof.
  destruct v; simpl; try discriminate; intros Ht H; injection H as <-.
  - destruct s; [discriminate Ht | discriminate].
  - destruct items; [discriminate Ht | discriminate].
  - destruct entries; [discriminate Ht | discriminate].
Qed.

Lemma Forall_dict_set {V : Type} (P : string * V -> Prop) (d : list (string * V)) k v :
  Forall P d -> P (k, v) -> Forall P (dict_set d k v).
Proof.
  intros Hd Hkv. apply Forall_forall. intros [k' v'] Hin.
  apply In_dict_set in Hin. destruct Hin as [-> | Hin]; [exact Hkv |].
  rewrite Forall_forall in Hd. apply Hd. exact Hin.
Qed.

Lemma given_item schema k v :
  given schema k = true -> dict_item schema k = Ok v -> truthy v = true.
Proof.
  unfold given, dict_item. destruct (dict_get schema k); [| discriminate].
  intros Ht H. injection H as <-. exact Ht.
Qed.

Section WellFormed.
Variable mk : value -> comp tree.
Hypothesis mk_well_formed : forall d t, mk d = Some (Ok t) -> well_formed t.

Lemma make_each_well_formed xs ts :
  make_each mk xs = Some (Ok ts) ->
  Forall well_formed ts /\ (xs <> [] -> ts <> []).
Proof.
  revert ts. induction xs as [| x xs IH]; intros ts H; cbn [make_each] in H.
  - injection H as <-. split; [constructor | congruence].
  - invert_comp H. injection H as <-. destruct (IH _ Ha0) as [Hts _]. split.
    + constructor; [apply (mk_well_formed x); exact Ha | exact Hts].
    + discriminate.
Qed.

Lemma init_fields_well_formed names defs known fields known' fields' :
  init_fields mk names defs known fields = Some (Ok (known', fields')) ->
  NoDup known ->
  Forall (fun fs : string * tree => well_formed (snd fs)) fields ->
  NoDup known' /\ Forall (fun fs : string * tree => well_formed (snd fs)) fields'.
Proof.
  revert known fields. induction names as [| field names IH]; intros known fields H Hnd Hf;
    cbn [init_fields] in H.
  - injection H as <- <-. auto.
  - destruct (str_in field known) eqn:K; [discriminate H |].
    invert_comp H. apply (IH _ _ H).
    + apply NoDup_app; [exact Hnd | repeat constructor; simpl; tauto |].
      intros k Hk [<- | []]. apply str_in_false in K. contradiction.
    + apply Forall_dict_set; [exact Hf |]. simpl. apply (mk_well_formed a). exact Ha0.
Qed.

Lemma init_which_well_formed schema which known known' fields' :
  init_which mk schema which known = Some (Ok (known', fields')) ->
  NoDup known ->
  NoDup known' /\ Forall (fun fs : string * tree => well_formed (snd fs)) fields'.
Proof.
  unfold init_which. intros H Hnd. invert_comp H.
  apply (init_fields_well_formed _ _ _ _ _ _ H Hnd). constructor.
Qed.

Lemma construct_well_formed t schema tr :
  construct mk t schema = Some (Ok tr) -> well_formed tr.
Proof.
  destruct t; cbn [construct]; intros H.
  - (* all *)
    unfold init_all in H. invert_comp H. injection H as <-.
    apply lift_ok in Ha0. apply negb_false_iff in Heqb0.
    destruct (make_each_well_formed _ _ Ha1) as [Hts Hne].
    constructor; [apply Hne; apply (py_iter_truthy v); assumption | exact Hts].
  - (* any *)
    unfold init_any in H. invert_comp H; try (injection H as <-; constructor);
      apply lift_ok in Ha; apply negb_false_iff in Heqb0;
      destruct (make_each_well_formed _ _ Ha0) as [Hts Hne];
      [apply Hne; eapply py_iter_truthy; eassumption | exact Hts | ..];
      try (apply Hne; eapply py_iter_truthy; eassumption); try exact Hts.
  - (* arr *)
    unfold init_arr in H. invert_comp H. injection H as <-.
    constructor; [apply (mk_well_formed a); exact Ha0 |].
    apply (range_if_given_ok schema "length"). exact Ha1.
  - unfold init_plain in H. invert_comp H. injection H as <-. constructor.
  - unfold init_plain in H. invert_comp H. injection H as <-. constructor.
  - unfold init_plain in H. invert_comp H. injection H as <-. constructor.
  - (* int *)
    unfold init_int in H. invert_comp H. injection H as <-.
    constructor; [| apply (range_if_present_ok schema "range"); exact Ha0].
    intros m ->. invert_comp Ha. injection Ha as <-.
    apply mod1_zero_integral. assumption.
  - (* map *)
    unfold init_map in H. invert_comp H. injection H as <-.
    constructor. apply (mk_well_formed a). exact Ha0.
  - unfold init_plain in H. invert_comp H. injection H as <-. constructor.
  - (* num *)
    unfold init_num in H. invert_comp H. injection H as <-.
    constructor. apply (range_if_given_ok schema "range"). exact Ha0.
  - unfold init_plain in H. invert_comp H. injection H as <-. constructor.
  - (* rec *)
    unfold init_rec in H. invert_comp H.
    destruct a0 as [known_req req], a1 as [known_opt opt]. simpl in *.
    injection H as <-.
    destruct (init_which_well_formed _ _ _ _ _ Ha0 (NoDup_nil _)) as [Hnd_req Hreq].
    destruct (init_which_well_formed _ _ _ _ _ Ha1 Hnd_req) as [Hnd_opt Hopt].
    constructor; try assumption.
    + apply init_which_known in Ha0, Ha1. simpl in Ha0. subst known_req. exact Ha1.
    + intros rs ->. invert_comp Ha. injection Ha as <-.
      apply (mk_well_formed a). assumption.
  - (* seq *)
    unfold init_seq in H. invert_comp H. injection H as <-.
    apply lift_ok in Ha, Ha0. apply negb_false_iff in Heqb0.
    destruct (make_each_well_formed _ _ Ha1) as [Hcs Hne].
    apply ok_seq; [| exact Hcs |].
    + apply Hne. apply (py_iter_truthy a); [| exact Ha0].
      apply (given_item schema "contents"); assumption.
    + intros ts ->. invert_comp Ha2. injection Ha2 as <-.
      eapply mk_well_formed. eassumption.
  - (* str *)
    unfold init_str in H. invert_comp H. injection H as <-.
    constructor. apply (range_if_present_ok schema "length"). exact Ha0.
Qed.
End WellFormed.

Lemma make_schema_well_formed fuel F def t :
  make_schema fuel F def = Some (Ok t) -> well_formed t.
Proof.
  revert def t. induction fuel as [| fuel IH]; intros def t H; [discriminate H |].
  cbn [make_schema] in H.
  set (schema := match def with
                 | VStr s => VDict [("type", VStr s)]
                 | _ => def
                 end) in H.
  destruct schema as [| | | | | | d]; try discriminate H.
  invert_comp H.
  - eapply (construct_well_formed (make_schema fuel F) IH). exact H.
  - eapply IH. exact H.
Qed.

(** X17: every tree that [make_schema] returns satisfies, at each of its
    nodes, what the constructors check or build: an all validator, an any
    validator with alternatives and a seq validator hold at least one
    schema; the [value] of an int validator has zero fractional part; the
    keys of every range predicate are among min, max, min-ex and max-ex;
    and the known fields of a rec validator are its required fields
    followed by its optional fields, no field named twice, so that no field
    is both required and optional. *)
Theorem compiled_tree_well_formed fuel F def t :
  make_schema fuel F def = Some (Ok t) ->
  well_formed t
  /\ (forall known rest required optional,
        t = RecType known rest required optional ->
        forall field, In field (dict_keys required) -> ~ In field (dict_keys optional)).
Proof.
  intros H. pose proof (make_schema_well_formed fuel F def t H) as Hwf.
  split; [exact Hwf |].
  intros known rest required optional -> field Hreq Hopt.
  inversion Hwf as [| | | | | | | | | | | | known' rest' req' opt' Hk Hnd _ _ _ | |].
  subst. clear - Hnd Hreq Hopt.
  induction (dict_keys required) as [| k ks IH]; [destruct Hreq |].
  simpl in Hnd. inversion Hnd as [| ? ? Hnotin Hnd']. subst.
  destruct Hreq as [-> | Hreq].
  - apply Hnotin. apply in_or_app. right. exact Hopt.
  - apply IH; assumption.
Qed.

Lemma compiled_tree_well_formed_witness :
  make_schema 3 core_factory arr_of_small_ints = Some (Ok arr_of_small_ints_tree)
  /\ well_formed arr_of_small_ints_tree.
Proof.
  split; [reflexivity |].
  destruct (compiled_tree_well_formed 3 core_factory arr_of_small_ints
              arr_of_small_ints_tree eq_refl) as [H _].
  exact H.
Defined.

(** ** The values a range predicate accepts form an interval *)

Lemma num_cmp_float a b : num_cmp a b = float_cmp (float_of a) (float_of b).
Proof.
  destruct a as [x | f], b as [y | g]; try reflexivity.
  simpl. unfold Qcompare. simpl. rewrite !Z.mul_1_r. reflexivity.
Qed.

Lemma float_cmp_opp a b : float_cmp b a = option_map CompOpp (float_cmp a b).
Proof.
  destruct a as [| [|] | p], b as [| [|] | q]; try reflexivity.
  simpl. rewrite <- Qcompare_antisym. reflexivity.
Qed.

Lemma float_le_lt_trans a b c :
  match float_cmp a b with Some Lt | Some Eq => True | _ => False end ->
  float_cmp b c = Some Lt -> float_cmp a c = Some Lt.
Proof.
  destruct a as [| [|] | p], b as [| [|] | q], c as [| [|] | r]; simpl;
    try tauto; try discriminate; try reflexivity.
  intros Hab Hbc. injection Hbc as Hbc. f_equal.
  apply Qlt_alt in Hbc. apply Qlt_alt.
  destruct (p ?= q)%Q eqn:E; try tauto.
  - apply Qeq_alt in E. rewrite E. exact Hbc.
  - apply Qlt_alt in E. apply (Qlt_trans _ q); assumption.
Qed.

Lemma float_le_trans a b c :
  match float_cmp a b with Some Lt | Some Eq => True | _ => False end ->
  match float_cmp b c with Some Lt | Some Eq => True | _ => False end ->
  match float_cmp a c with Some Lt | Some Eq => True | _ => False end.
Proof.
  destruct a as [| [|] | p], b as [| [|] | q], c as [| [|] | r]; simpl; try tauto.
  intros Hab Hbc.
  assert (Hpq : (p <= q)%Q).
  { apply Qle_alt. destruct (p ?= q)%Q; [discriminate | discriminate | tauto]. }
  assert (Hqr : (q <= r)%Q).
  { apply Qle_alt. destruct (q ?= r)%Q; [discriminate | discriminate | tauto]. }
  pose proof (proj1 (Qle_alt p r) (Qle_trans _ _ _ Hpq Hqr)) as Hpr.
  destruct (p ?= r)%Q; [exact I | exact I | apply Hpr; reflexivity].
Qed.

Lemma float_lt_le_trans a b c :
  float_cmp a b = Some Lt ->
  match float_cmp b c with Some Lt | Some Eq => True | _ => False end ->
  float_cmp a c = Some Lt.
Proof.
  destruct a as [| [|] | p], b as [| [|] | q], c as [| [|] | r]; simpl;
    try tauto; try discriminate; try reflexivity.
  intros Hab Hbc. injection Hab as Hab. f_equal.
  apply Qlt_alt in Hab. apply Qlt_alt.
  destruct (q ?= r)%Q eqn:E; try tauto.
  - apply Qeq_alt in E. rewrite <- E. exact Hab.
  - apply Qlt_alt in E. apply (Qlt_trans _ q); assumption.
Qed.

Lemma num_le_iff a b :
  num_le a b = true <->
  match float_cmp (float_of a) (float_of b) with
  | Some Lt | Some Eq => True
  | _ => False
  end.
Proof.
  unfold num_le. rewrite num_cmp_float.
  destruct (float_cmp (float_of a) (float_of b)) as [[| |] |]; split;
    try tauto; discriminate.
Qed.

Lemma num_lt_iff a b :
  num_lt a b = true <-> float_cmp (float_of a) (float_of b) = Some Lt.
Proof.
  unfold num_lt. rewrite num_cmp_float.
  destruct (float_cmp (float_of a) (float_of b)) as [[| |] |]; split;
    try reflexivity; discriminate.
Qed.

Lemma num_ge_iff a b : num_ge a b = true <-> num_le b a = true.
Proof.
  unfold num_ge, num_le. rewrite !num_cmp_float, (float_cmp_opp (float_of a)).
  destruct (float_cmp (float_of a) (float_of b)) as [[| |] |]; simpl; split;
    try reflexivity; discriminate.
Qed.

Lemma num_gt_iff a b : num_gt a b = true <-> num_lt b a = true.
Proof.
  unfold num_gt, num_lt. rewrite !num_cmp_float, (float_cmp_opp (float_of a)).
  destruct (float_cmp (float_of a) (float_of b)) as [[| |] |]; simpl; split;
    try reflexivity; discriminate.
Qed.

(** X18: the numbers that a range predicate with usable bounds accepts form
    an interval: a number that lies between two accepted numbers is
    accepted. *)
Theorem range_accepts_interval (r : range_dict) (lo x hi : number) :
  range_ok r = true ->
  check_range r lo = Ok true ->
  check_range r hi = Ok true ->
  num_le lo x = true ->
  num_le x hi = true ->
  check_range r x = Ok true.
Proof.
  intros Hok Hlo Hhi Hlx Hxh.
  destruct (check_range_spec r lo Hok) as [blo [Elo Slo]].
  destruct (check_range_spec r hi Hok) as [bhi [Ehi Shi]].
  destruct (check_range_spec r x Hok) as [bx [Ex Sx]].
  rewrite Ex. destruct bx; [reflexivity |]. exfalso.
  assert (Hnlo : ~ out_of_range r lo).
  { intros H. apply Slo in H. congruence. }
  assert (Hnhi : ~ out_of_range r hi).
  { intros H. apply Shi in H. congruence. }
  apply num_le_iff in Hlx, Hxh.
  destruct (proj1 Sx eq_refl) as [[m [Hm H]] | [[m [Hm H]] | [[m [Hm H]] | [m [Hm H]]]]].
  - apply Hnlo. left. exists m. split; [exact Hm |].
    apply num_lt_iff in H. apply num_lt_iff.
    apply (float_le_lt_trans _ (float_of x)); assumption.
  - apply Hnlo. right. left. exists m. split; [exact Hm |].
    apply num_le_iff in H. apply num_le_iff.
    apply (float_le_trans _ (float_of x)); assumption.
  - apply Hnhi. right. right. left. exists m. split; [exact Hm |].
    apply num_ge_iff in H. apply num_ge_iff. apply num_le_iff in H. apply num_le_iff.
    apply (float_le_trans _ (float_of x)); assumption.
  - apply Hnhi. right. right. right. exists m. split; [exact Hm |].
    apply num_gt_iff in H. apply num_gt_iff. apply num_lt_iff in H. apply num_lt_iff.
    apply (float_lt_le_trans _ (float_of x)); assumption.
Qed.

Lemma range_accepts_interval_witness :
  range_ok half_open = true
  /\ check_range half_open (NInt 1) = Ok true
  /\ check_range half_open (NInt 4) = Ok true
  /\ num_le (NInt 1) (NFloat (FFin (5 # 2))) = true
  /\ num_le (NFloat (FFin (5 # 2))) (NInt 4) = true
  /\ check_range half_open (NFloat (FFin (5 # 2))) = Ok true.
Proof.
  repeat (split; [reflexivity |]).
  apply (range_accepts_interval half_open (NInt 1) (NFloat (FFin (5 # 2))) (NInt 4));
    reflexivity.
Defined.

(** ** Parameters that the constructors refuse *)

Section CoreDefinition.
Variable F : Factory.
Variable fuel : nat.
Variable d : list (string * value).
Variable name : value.
Variable u : string.
Hypothesis type_is_name : dict_get d "type" = Some name.
Hypothesis name_expands : expand_uri F name = Ok u.

Lemma make_core t :
  dict_get (type_registry F) u = Some (Builtin t) ->
  make_schema (S fuel) F (VDict d) = construct (make_schema fuel F) t d.
Proof.
  intros Hreg. rewrite (make_schema_by_name fuel F name u d type_is_name name_expands).
  rewrite Hreg. reflexivity.
Qed.

Lemma invalid_value_int v :
  dict_get (type_registry F) u = Some (Builtin Int) ->
  keys_within (dict_keys d) ("type" :: parameters Int) = true ->
  dict_get d "value" = Some v ->
  (forall n, as_num v = Some n -> ~ integral n) ->
  make_schema (S fuel) F (VDict d)
    = Some (Err (RxError "invalid value parameter for //int")).
Proof.
  intros Hreg Hkeys Hv Hbad. rewrite (make_core Int Hreg). cbn [construct].
  unfold init_int. cbn [parameters] in Hkeys. rewrite Hkeys, Hv. cbn [negb].
  destruct (as_num v) as [n |] eqn:E; [| reflexivity].
  destruct (mod1_nonzero n) eqn:M; [reflexivity |].
  apply mod1_zero_integral in M. destruct (Hbad n eq_refl M).
Qed.

Lemma invalid_value_num v :
  dict_get (type_registry F) u = Some (Builtin Num) ->
  keys_within (dict_keys d) ("type" :: parameters Num) = true ->
  dict_get d "value" = Some v ->
  as_num v = None ->
  make_schema (S fuel) F (VDict d)
    = Some (Err (RxError "invalid value parameter for //num")).
Proof.
  intros Hreg Hkeys Hv Hbad. rewrite (make_core Num Hreg). cbn [construct].
  unfold init_num. cbn [parameters] in Hkeys. rewrite Hkeys, Hv, Hbad. reflexivity.
Qed.

Lemma invalid_value_str v :
  dict_get (type_registry F) u = Some (Builtin Str) ->
  keys_within (dict_keys d) ("type" :: parameters Str) = true ->
  dict_get d "value" = Some v ->
  (forall s, v <> VStr s) ->
  make_schema (S fuel) F (VDict d)
    = Some (Err (RxError "invalid value parameter for //str")).
Proof.
  intros Hreg Hkeys Hv Hbad. rewrite (make_core Str Hreg). cbn [construct].
  unfold init_str. cbn [parameters] in Hkeys. rewrite Hkeys, Hv. cbn [negb].
  destruct v; try reflexivity. destruct (Hbad s eq_refl).
Qed.

Lemma missing_contents t :
  t = Arr \/ t = Seq ->
  dict_get (type_registry F) u = Some (Builtin t) ->
  keys_within (dict_keys d) ("type" :: parameters t) = true ->
  given d "contents" = false ->
  make_schema (S fuel) F (VDict d)
    = Some (Err (RxError ("no contents provided for //" ++ subname t))).
Proof.
  intros [-> | ->] Hreg Hkeys Hmissing.
  - rewrite (make_core Arr Hreg). cbn [construct]. unfold init_arr.
    cbn [parameters] in Hkeys. rewrite Hkeys, Hmissing. reflexivity.
  - rewrite (make_core Seq Hreg). cbn [construct]. unfold init_seq.
    cbn [parameters] in Hkeys. rewrite Hkeys, Hmissing. reflexivity.
Qed.

Lemma missing_values :
  dict_get (type_registry F) u = Some (Builtin Map) ->
  keys_within (dict_keys d) ("type" :: parameters Map) = true ->
  given d "values" = false ->
  make_schema (S fuel) F (VDict d) = Some (Err (RxError "no values given for //map")).
Proof.
  intros Hreg Hkeys Hmissing. rewrite (make_core Map Hreg). cbn [construct].
  unfold init_map. cbn [parameters] in Hkeys. rewrite Hkeys, Hmissing. reflexivity.
Qed.

Lemma missing_alternatives_all :
  dict_get (type_registry F) u = Some (Builtin All) ->
  keys_within (dict_keys d) ("type" :: parameters All) = true ->
  given d "of" = false ->
  make_schema (S fuel) F (VDict d)
    = Some (Err (RxError "no alternatives given in //all of")).
Proof.
  intros Hreg Hkeys Hmissing. rewrite (make_core All Hreg). cbn [construct].
  unfold init_all. cbn [parameters] in Hkeys. rewrite Hkeys. cbn [negb].
  unfold given in Hmissing. destruct (dict_get d "of") as [alts |]; [| reflexivity].
  rewrite Hmissing. reflexivity.
Qed.

Lemma alternatives_any :
  dict_get (type_registry F) u = Some (Builtin Any) ->
  keys_within (dict_keys d) ("type" :: parameters Any) = true ->
  (dict_get d "of" = None \/ dict_get d "of" = Some VNone ->
   make_schema (S fuel) F (VDict d) = Some (Ok (AnyType None)))
  /\ (forall alts, dict_get d "of" = Some alts -> alts <> VNone -> truthy alts = false ->
        make_schema (S fuel) F (VDict d)
          = Some (Err (RxError "no alternatives given in //any of"))).
Proof.
  intros Hreg Hkeys. rewrite (make_core Any Hreg). cbn [construct].
  unfold init_any. cbn [parameters] in Hkeys. rewrite Hkeys. cbn [negb]. split.
  - intros [-> | ->]; reflexivity.
  - intros alts -> Hnone Hfalsy. rewrite Hfalsy. cbn [negb].
    destruct alts; try reflexivity. congruence.
Qed.
End CoreDefinition.

(** X19: the [value] parameter is checked when the tree is built.  On a
    definition whose type resolves to the core int type and whose other
    keys are its parameters, a [value] that is not a number, or is a
    boolean, or has a fractional part, makes [make_schema] raise the compile
    error; so does, for the num type, a [value] that is not a number or is
    a boolean, and for the str type a [value] that is not a text. *)
Theorem invalid_value_rejected F fuel (d : list (string * value)) (name : value)
    (u : string) (v : value) :
  dict_get d "type" = Some name ->
  expand_uri F name = Ok u ->
  dict_get d "value" = Some v ->
  (dict_get (type_registry F) u = Some (Builtin Int) ->
   keys_within (dict_keys d) ("type" :: parameters Int) = true ->
   (forall n, as_num v = Some n -> ~ integral n) ->
   make_schema (S fuel) F (VDict d)
     = Some (Err (RxError "invalid value parameter for //int")))
  /\ (dict_get (type_registry F) u = Some (Builtin Num) ->
      keys_within (dict_keys d) ("type" :: parameters Num) = true ->
      as_num v = None ->
      make_schema (S fuel) F (VDict d)
        = Some (Err (RxError "invalid value parameter for //num")))
  /\ (dict_get (type_registry F) u = Some (Builtin Str) ->
      keys_within (dict_keys d) ("type" :: parameters Str) = true ->
      (forall s, v <> VStr s) ->
      make_schema (S fuel) F (VDict d)
        = Some (Err (RxError "invalid value parameter for //str"))).
Proof.
  intros Htype Hu Hv. split; [| split].
  - intros Hreg Hkeys Hbad. apply (invalid_value_int F fuel d name u Htype Hu v); assumption.
  - intros Hreg Hkeys Hbad. apply (invalid_value_num F fuel d name u Htype Hu v); assumption.
  - intros Hreg Hkeys Hbad. apply (invalid_value_str F fuel d name u Htype Hu v); assumption.
Qed.

Lemma invalid_value_rejected_witness :
  dict_get [("type", VStr "//int"); ("value", VBool true)] "type" = Some (VStr "//int")
  /\ expand_uri core_factory (VStr "//int") = Ok (uri Int)
  /\ dict_get [("type", VStr "//int"); ("value", VBool true)] "value" = Some (VBool true)
  /\ make_schema 1 core_factory (VDict [("type", VStr "//int"); ("value", VBool true)])
     = Some (Err (RxError "invalid value parameter for //int")).
Proof.
  split; [reflexivity |]. split; [reflexivity |]. split; [reflexivity |].
  destruct (invalid_value_rejected core_factory 0
              [("type", VStr "//int"); ("value", VBool true)] (VStr "//int") (uri Int)
              (VBool true) eq_refl eq_refl eq_refl) as [H _].
  apply H; [reflexivity | reflexivity |]. intros n E. discriminate E.
Defined.

(** X20: the parameters that a core type cannot do without.  On a
    definition whose type resolves to a core type and whose other keys are
    its parameters, [make_schema] raises the compile error when [contents]
    is absent or false in a condition (null, an empty list, an empty text)
    for arr and seq, when [values] is so for map, and when [of] is so for
    all; for any, an absent or null [of] gives the validator that accepts
    everything, and any other [of] that is false in a condition raises the
    compile error. *)
Theorem required_parameters F fuel (d : list (string * value)) (name : value)
    (u : string) :
  dict_get d "type" = Some name ->
  expand_uri F name = Ok u ->
  (forall t, t = Arr \/ t = Seq ->
     dict_get (type_registry F) u = Some (Builtin t) ->
     keys_within (dict_keys d) ("type" :: parameters t) = true ->
     given d "contents" = false ->
     make_schema (S fuel) F (VDict d)
       = Some (Err (RxError ("no contents provided for //" ++ subname t))))
  /\ (dict_get (type_registry F) u = Some (Builtin Map) ->
      keys_within (dict_keys d) ("type" :: parameters Map) = true ->
      given d "values" = false ->
      make_schema (S fuel) F (VDict d) = Some (Err (RxError "no values given for //map")))
  /\ (dict_get (type_registry F) u = Some (Builtin All) ->
      keys_within (dict_keys d) ("type" :: parameters All) = true ->
      given d "of" = false ->
      make_schema (S fuel) F (VDict d)
        = Some (Err (RxError "no alternatives given in //all of")))
  /\ (dict_get (type_registry F) u = Some (Builtin Any) ->
      keys_within (dict_keys d) ("type" :: parameters Any) = true ->
      (dict_get d "of" = None \/ dict_get d "of" = Some VNone ->
       make_schema (S fuel) F (VDict d) = Some (Ok (AnyType None)))
      /\ (forall alts, dict_get d "of" = Some alts -> alts <> VNone ->
            truthy alts = false ->
            make_schema (S fuel) F (VDict d)
              = Some (Err (RxError "no alternatives given in //any of")))).
Proof.
  intros Htype Hu. split; [| split; [| split]].
  - intros t. apply (missing_contents F fuel d name u Htype Hu).
  - apply (missing_values F fuel d name u Htype Hu).
  - apply (missing_alternatives_all F fuel d name u Htype Hu).
  - apply (alternatives_any F fuel d name u Htype Hu).
Qed.

Lemma required_parameters_witness :
  dict_get [("type", VStr "//any"); ("of", VList [])] "type" = Some (VStr "//any")
  /\ expand_uri core_factory (VStr "//any") = Ok (uri Any)
  /\ make_schema 1 core_factory (VDict [("type", VStr "//any"); ("of", VList [])])
     = Some (Err (RxError "no alternatives given in //any of")).
Proof.
  split; [reflexivity |]. split; [reflexivity |].
  destruct (required_parameters core_factory 0
              [("type", VStr "//any"); ("of", VList [])] (VStr "//any") (uri Any)
              eq_refl eq_refl) as [_ [_ [_ H]]].
  destruct (H eq_refl eq_refl) as [_ Hempty].
  apply (Hempty (VList [])); [reflexivity | discriminate | reflexivity].
Defined.

(** X21: how the presence of a range parameter is tested differs between
    the core types.  The int type tests whether the key [range] is in the
    definition, and the str type whether [length] is: a value that is not a
    mapping, null included, then reaches [make_range_check], and
    [make_schema] raises [AttributeError].  The num type tests the truth
    value of [range], and the arr type that of [length]: null, an empty
    mapping and every other value that is false in a condition count as no
    range at all. *)
Theorem range_parameter_presence F fuel (d : list (string * value)) (name : value)
    (u : string) :
  dict_get d "type" = Some name ->
  expand_uri F name = Ok u ->
  (forall v, dict_get (type_registry F) u = Some (Builtin Int) ->
     keys_within (dict_keys d) ("type" :: parameters Int) = true ->
     dict_get d "value" = None ->
     dict_get d "range" = Some v -> (forall d', v <> VDict d') ->
     make_schema (S fuel) F (VDict d) = Some (Err AttributeError))
  /\ (forall v, dict_get (type_registry F) u = Some (Builtin Str) ->
        keys_within (dict_keys d) ("type" :: parameters Str) = true ->
        dict_get d "value" = None ->
        dict_get d "length" = Some v -> (forall d', v <> VDict d') ->
        make_schema (S fuel) F (VDict d) = Some (Err AttributeError))
  /\ (dict_get (type_registry F) u = Some (Builtin Num) ->
      keys_within (dict_keys d) ("type" :: parameters Num) = true ->
      dict_get d "value" = None ->
      given d "range" = false ->
      make_schema (S fuel) F (VDict d) = Some (Ok (NumType None None)))
  /\ (forall t, dict_get (type_registry F) u = Some (Builtin Arr) ->
        given d "length" = false ->
        make_schema (S fuel) F (VDict d) = Some (Ok t) ->
        exists content_schema, t = ArrType content_schema None).
Proof.
  intros Htype Hu.
  assert (Hnot : forall v, (forall d', v <> VDict d') ->
                           make_range_check v = Err AttributeError).
  { intros v Hv. destruct v; try reflexivity. destruct (Hv entries eq_refl). }
  split; [| split; [| split]].
  - intros v Hreg Hkeys Hvalue Hrange Hv.
    rewrite (make_core F fuel d name u Htype Hu Int Hreg). cbn [construct].
    unfold init_int, range_if_present. cbn [parameters] in Hkeys.
    rewrite Hkeys, Hvalue, Hrange. cbn [negb ret cbind lift]. rewrite (Hnot v Hv).
    reflexivity.
  - intros v Hreg Hkeys Hvalue Hlength Hv.
    rewrite (make_core F fuel d name u Htype Hu Str Hreg). cbn [construct].
    unfold init_str, range_if_present. cbn [parameters] in Hkeys.
    rewrite Hkeys, Hvalue, Hlength. cbn [negb ret cbind lift]. rewrite (Hnot v Hv).
    reflexivity.
  - intros Hreg Hkeys Hvalue Hrange.
    rewrite (make_core F fuel d name u Htype Hu Num Hreg). cbn [construct].
    unfold init_num, range_if_given. cbn [parameters] in Hkeys.
    rewrite Hkeys, Hvalue, Hrange. reflexivity.
  - intros t Hreg Hlength H.
    rewrite (make_core F fuel d name u Htype Hu Arr Hreg) in H. cbn [construct] in H.
    unfold init_arr, range_if_given in H. rewrite Hlength in H.
    invert_comp H. injection H as <-. injection Ha1 as <-. eauto.
Qed.

Lemma range_parameter_presence_witness :
  dict_get [("type", VStr "//int"); ("range", VNone)] "type" = Some (VStr "//int")
  /\ expand_uri core_factory (VStr "//int") = Ok (uri Int)
  /\ make_schema 1 core_factory (VDict [("type", VStr "//int"); ("range", VNone)])
     = Some (Err AttributeError)
  /\ make_schema 1 core_factory (VDict [("type", VStr "//num"); ("range", VNone)])
     = Some (Ok (NumType None None)).
Proof.
  split; [reflexivity |]. split; [reflexivity |]. split.
  - destruct (range_parameter_presence core_factory 0
                [("type", VStr "//int"); ("range", VNone)] (VStr "//int") (uri Int)
                eq_refl eq_refl) as [H _].
    apply (H VNone); try reflexivity. discriminate.
  - destruct (range_parameter_presence core_factory 0
                [("type", VStr "//num"); ("range", VNone)] (VStr "//num") (uri Num)
                eq_refl eq_refl) as [_ [_ [H _]]].
    apply H; reflexivity.
Defined.

(** * The checks, stated on exact values *)

(** ** The model's tests and the exact order *)

Lemma as_num_numeric x n : as_num x = Some n <-> numeric x n.
Proof.
  split.
  - destruct x; simpl; intros H; try discriminate H; injection H as <-; constructor.
  - intros H. destruct H; reflexivity.
Qed.

Lemma float_of_exact n : float_of n = exact n.
Proof. destruct n; reflexivity. Qed.

Lemma num_lt_less a b : num_lt a b = true <-> less a b.
Proof.
  rewrite num_lt_iff. unfold less.
  rewrite (float_of_exact a), (float_of_exact b).
  destruct (exact a) as [| [|] | p], (exact b) as [| [|] | q];
    cbv beta iota delta [float_cmp];
    try (split; [discriminate | tauto]); try (split; [intros _; exact I | reflexivity]).
  all: rewrite Qlt_alt; split; [intros H; injection H as ->; reflexivity | congruence].
Qed.

Lemma num_le_at_most a b : num_le a b = true <-> at_most a b.
Proof.
  rewrite num_le_iff. unfold at_most.
  rewrite (float_of_exact a), (float_of_exact b).
  destruct (exact a) as [| [|] | p], (exact b) as [| [|] | q];
    cbv beta iota delta [float_cmp]; try tauto.
  all: rewrite Qle_alt; destruct (p ?= q)%Q; split; try tauto; try discriminate.
  all: intros H; apply H; reflexivity.
Qed.

Lemma num_ge_at_most a b : num_ge a b = true <-> at_most b a.
Proof. rewrite num_ge_iff. apply num_le_at_most. Qed.

Lemma num_gt_less a b : num_gt a b = true <-> less b a.
Proof. rewrite num_gt_iff. apply num_lt_less. Qed.

Lemma num_eq_same a b : num_eq a b = true <-> same_number a b.
Proof.
  unfold num_eq, same_number.
  rewrite num_cmp_float, (float_of_exact a), (float_of_exact b).
  destruct (exact a) as [| [|] | p], (exact b) as [| [|] | q];
    cbv beta iota delta [float_cmp];
    try (split; [discriminate | tauto]); try (split; [discriminate | discriminate]);
    try (split; reflexivity).
  all: rewrite Qeq_alt; destruct (p ?= q)%Q; split; try reflexivity; discriminate.
Qed.

Lemma less_int x y : less (NInt x) (NInt y) <-> (x < y)%Z.
Proof. unfold less, Qlt. simpl. rewrite !Z.mul_1_r. tauto. Qed.

Lemma at_most_int x y : at_most (NInt x) (NInt y) <-> (x <= y)%Z.
Proof. unfold at_most, Qle. simpl. rewrite !Z.mul_1_r. tauto. Qed.

Lemma same_number_int x y : same_number (NInt x) (NInt y) <-> x = y.
Proof. unfold same_number, Qeq. simpl. rewrite !Z.mul_1_r. tauto. Qed.

Lemma as_ordered_bound b m : as_ordered b = Some m <-> bound_value b m.
Proof.
  split.
  - destruct b as [| [|] | | | | |]; simpl; intros H; try discriminate H;
      injection H as <-; constructor.
  - intros H. destruct H; reflexivity.
Qed.

Lemma bound_at_set_to r k m : bound_at r k m <-> set_to r k m.
Proof.
  unfold bound_at, set_to. split.
  - intros [b [Hget [_ Hb]]]. exists b. split; [exact Hget |].
    apply as_ordered_bound. exact Hb.
  - intros [b [Hget Hb]]. exists b. split; [exact Hget |]. split.
    + intros ->. inversion Hb.
    + apply as_ordered_bound. exact Hb.
Qed.

Lemma out_of_range_outside r n : out_of_range r n <-> outside_range r n.
Proof.
  unfold out_of_range, outside_range.
  assert (H : forall k (P : number -> Prop) (Q : number -> Prop),
             (forall m, P m <-> Q m) ->
             ((exists m, bound_at r k m /\ P m) <-> (exists m, set_to r k m /\ Q m))).
  { intros k P Q HPQ. split; intros [m [Hm Hp]]; exists m;
      (split; [apply bound_at_set_to; exact Hm | apply HPQ; exact Hp]). }
  rewrite (H "min" _ (fun m => less n m)) by (intros m; apply num_lt_less).
  rewrite (H "min-ex" _ (fun m => at_most n m)) by (intros m; apply num_le_at_most).
  rewrite (H "max-ex" _ (fun m => at_most m n)) by (intros m; apply num_ge_at_most).
  rewrite (H "max" _ (fun m => less m n)) by (intros m; apply num_gt_less).
  tauto.
Qed.

Lemma numeric_range_ok opt : numeric_range opt = range_ok opt.
Proof.
  unfold numeric_range, range_ok.
  assert (H : forall b, number_or_null b = bound_ok b) by (intros b; destruct b; reflexivity).
  unfold range_keys. cbn [forallb].
  repeat match goal with
         | |- context [dict_get opt ?k] => destruct (dict_get opt k); rewrite ?H
         end; reflexivity.
Qed.

(** ** The range predicate *)

(** C3, as stated, fails: the predicate built from [{"max": 3, "max-ex":
    "a"}] does not reject 5, although 5 is above max; ordering 5 against the
    text bound raises [TypeError] before max is looked at. *)
Lemma range_raises_before_max :
  ~ (forall opt r n,
        make_range_check (VDict opt) = Ok r ->
        (check_range r n = Ok false <-> outside_range opt n)).
Proof.
  intros H.
  destruct (H max_and_text max_and_text (NInt 5) eq_refl) as [_ Hrej].
  assert (Hout : outside_range max_and_text (NInt 5)).
  { right. right. right. exists (NInt 3). split.
    - exists (VInt 3). split; [reflexivity | constructor].
    - apply less_int. lia. }
  specialize (Hrej Hout). discriminate Hrej.
Qed.

(** C3, amended: for every range predicate built from the keys min, max,
    min-ex and max-ex in which every bound that is set is a number (a bound
    given as null is not set), and for every candidate number [n], the
    predicate rejects [n] if and only if [n < min], [n <= min-ex],
    [n >= max-ex] or [n > max] for a bound that is set, and accepts it
    otherwise; absent bounds impose no constraint; [{min: 1, max-ex: 5}]
    accepts 1, 2, 3, 4 and rejects 0, 5, 6.  The comparisons are those of
    the exact values, which on integers are the order of the integers. *)
Theorem range_rejects_exactly (opt r : range_dict) (n : number) :
  make_range_check (VDict opt) = Ok r ->
  numeric_range opt = true ->
  (check_range r n = Ok false <-> outside_range opt n)
  /\ (check_range r n = Ok true <-> ~ outside_range opt n)
  /\ (forall r0, make_range_check (VDict []) = Ok r0 -> check_range r0 n = Ok true)
  /\ (forall x y, (less (NInt x) (NInt y) <-> (x < y)%Z)
                  /\ (at_most (NInt x) (NInt y) <-> (x <= y)%Z))
  /\ (forall r1, make_range_check (VDict half_open) = Ok r1 ->
        map (check_range r1) [NInt 1; NInt 2; NInt 3; NInt 4]
          = [Ok true; Ok true; Ok true; Ok true]
        /\ map (check_range r1) [NInt 0; NInt 5; NInt 6]
          = [Ok false; Ok false; Ok false])
  /\ (forall r2, make_range_check (VDict left_open) = Ok r2 ->
        map (check_range r2) [NInt 2; NInt 5] = [Ok true; Ok true]
        /\ map (check_range r2) [NInt 1; NInt 6] = [Ok false; Ok false]).
Proof.
  intros Hmake Hok. rewrite numeric_range_ok in Hok.
  pose proof (make_range_check_get opt r Hmake) as Hget.
  assert (Hr : range_ok r = true).
  { unfold range_ok, range_keys in *. cbn [forallb] in *. rewrite !Hget. exact Hok. }
  assert (Hout : out_of_range r n <-> outside_range opt n).
  { rewrite out_of_range_outside. unfold outside_range, set_to. rewrite !Hget. tauto. }
  destruct (check_range_spec r n Hr) as [b [E S]]. rewrite E, <- Hout.
  split; [| split; [| split; [| split; [| split]]]].
  - rewrite <- S. split; congruence.
  - rewrite <- S. destruct b; split; congruence.
  - intros r0 H0. vm_compute in H0. injection H0 as <-. reflexivity.
  - intros x y. split; [apply less_int | apply at_most_int].
  - intros r1 H1. vm_compute in H1. injection H1 as <-. split; reflexivity.
  - intros r2 H2. vm_compute in H2. injection H2 as <-. split; reflexivity.
Qed.

Lemma range_rejects_exactly_witness :
  make_range_check (VDict left_open) = Ok left_open
  /\ numeric_range left_open = true
  /\ (check_range left_open (NInt 6) = Ok false <-> outside_range left_open (NInt 6)).
Proof.
  split; [reflexivity |]. split; [reflexivity |].
  destruct (range_rejects_exactly left_open left_open (NInt 6) eq_refl eq_refl)
    as [H _].
  exact H.
Defined.

(** ** [IntType.check] and [NumType.check] *)

Lemma num_accepts_exact expected range x :
  accepts (NumType expected range) x <->
  exists n, numeric x n
            /\ (forall r, range = Some r -> check_range r n = Ok true)
            /\ (forall v, expected = Some v -> same_number n v).
Proof.
  rewrite num_accepts_iff. split; intros [n [Hn [Hr Hv]]]; exists n.
  - split; [apply as_num_numeric; exact Hn |]. split; [exact Hr |].
    intros v E. apply num_eq_same. apply (Hv v E).
  - split; [apply as_num_numeric; exact Hn |]. split; [exact Hr |].
    intros v E. apply num_eq_same. apply (Hv v E).
Qed.

Lemma int_accepts_exact expected range x :
  accepts (IntType expected range) x <->
  exists n, numeric x n
            /\ integral n
            /\ (forall r, range = Some r -> check_range r n = Ok true)
            /\ (forall v, expected = Some v -> same_number n v).
Proof.
  rewrite int_accepts_iff, num_accepts_exact. split.
  - intros [[n [Hn [Hr Hv]]] [n' [E Hi]]]. exists n.
    apply as_num_numeric in E. destruct Hn; inversion E; subst; auto.
  - intros [n [Hn [Hi [Hr Hv]]]]. split; exists n; auto.
    split; [apply as_num_numeric; exact Hn | exact Hi].
Qed.

(** C6: the check of an int validator returns true exactly when the value
    is an integer or a float, and not a boolean, has zero fractional part,
    satisfies the range predicate if the validator has one, and equals the
    [value] parameter if the validator has one (on integers: is the same
    integer); it returns false on every boolean; [{"type": "//int",
    "value": 5}] accepts 5 and rejects 6, 5.5, "5" and true. *)
Theorem int_check_accepts (expected : option number) (range : option range_dict)
    (x : value) :
  (check (IntType expected range) x = Ok true <->
   exists n, numeric x n
             /\ integral n
             /\ (forall r, range = Some r -> check_range r n = Ok true)
             /\ (forall v, expected = Some v -> same_number n v))
  /\ (forall b, check (IntType expected range) (VBool b) = Ok false)
  /\ (forall a b, same_number (NInt a) (NInt b) <-> a = b)
  /\ (exists t, make_schema 1 core_factory int_five = Some (Ok t)
                /\ check t (VInt 5) = Ok true
                /\ check t (VInt 6) = Ok false
                /\ check t (VFloat (FFin (11 # 2))) = Ok false
                /\ check t (VStr "5") = Ok false
                /\ check t (VBool true) = Ok false).
Proof.
  split; [apply int_accepts_exact |]. split; [reflexivity |].
  split; [apply same_number_int |].
  eexists. split; [reflexivity |]. repeat split; reflexivity.
Qed.

(** X5: a num validator accepts exactly the integers and floats, booleans
    excluded, that satisfy its range, if it holds one, and equal its [value]
    parameter, if it holds one; it returns false on every boolean; an int
    validator with the same parameters accepts exactly the values that the
    num validator accepts and that have zero fractional part. *)
Theorem num_check_accepts (expected : option number) (range : option range_dict)
    (x : value) :
  (accepts (NumType expected range) x <->
   exists n, numeric x n
             /\ (forall r, range = Some r -> check_range r n = Ok true)
             /\ (forall v, expected = Some v -> same_number n v))
  /\ (forall b, rejects (NumType expected range) (VBool b))
  /\ (accepts (IntType expected range) x <->
      accepts (NumType expected range) x
      /\ exists n, numeric x n /\ integral n).
Proof.
  split; [apply num_accepts_exact |]. split; [reflexivity |].
  rewrite int_accepts_iff. split; intros [Hnum [n [Hn Hi]]]; (split; [exact Hnum |]);
    exists n; (split; [apply as_num_numeric; exact Hn | exact Hi]).
Qed.

(** ** [ArrType.check] *)

(** X3: an arr validator returns false on anything that is not a sequence;
    it accepts a sequence exactly when the number of its elements satisfies
    the length range, if the validator holds one, and every element
    satisfies the contents schema; so without a length range the empty
    sequence is always accepted. *)
Theorem arr_check_elements (content_schema : tree) (length : option range_dict)
    (x : value) :
  ((forall items, x <> VList items) -> rejects (ArrType content_schema length) x)
  /\ (forall items, x = VList items ->
        (accepts (ArrType content_schema length) x <->
         (forall r, length = Some r ->
            check_range r (NInt (Z.of_nat (List.length items))) = Ok true)
         /\ Forall (accepts content_schema) items))
  /\ accepts (ArrType content_schema None) (VList []).
Proof.
  split; [| split; [| reflexivity]].
  - intros Hx. destruct x; try reflexivity. exfalso. apply (Hx items). reflexivity.
  - intros items ->. unfold accepts at 1. cbn [check].
    rewrite <- (outside_false length (NInt (Z.of_nat (List.length items)))).
    change (len_of items) with (NInt (Z.of_nat (List.length items))).
    destruct (outside length (NInt (Z.of_nat (List.length items)))) as [[|] | e];
      cbn [bind].
    + split; [discriminate | intros [H _]; discriminate].
    + rewrite all_checks_true. unfold accepts. tauto.
    + split; [discriminate | intros [H _]; discriminate].
Qed.

(** ** [SeqType.check] and [RecType.check], with every outcome *)








